(** * Bulls and Cows (pokus_3.1.py): a shallow embedding and its properties

    The program is a console game: [generate_number] draws the secret,
    [is_valid_input] checks a submitted line, [evaluate_guess] scores a
    guess and [play_game] runs the prompt/validate/score loop.

    Python values are modelled as follows.
    - [int] is unbounded, so digits and counters are [Z].
    - [list[int]] is [list Z]; where mutation matters the lists live in a
      store ([gmap loc (list Z)]) and are passed by reference.
    - [str] is [string].  A Rocq character is one of the code points
      U+0000..U+00FF, so the strings modelled are the Python strings over
      those code points.
    - A call either returns a value or raises a built-in exception
      ([outcome]). *)

From Stdlib Require Import ZArith Ascii String.
From stdpp Require Import base decidable option list sets gmap gmultiset strings pretty.

Open Scope Z_scope.

(** ** Python calls: a value or an exception *)

Inductive exn : Type :=
  | ValueError
  | IndexError.

Inductive outcome (A : Type) : Type :=
  | Returns (a : A)
  | Raises (e : exn).
Arguments Returns {A} a.
Arguments Raises {A} e.

Global Instance outcome_ret : MRet outcome := fun A a => Returns a.
Global Instance outcome_bind : MBind outcome := fun A B k m =>
  match m with
  | Returns a => k a
  | Raises e => Raises e
  end.
Global Instance outcome_fmap : FMap outcome := fun A B f m =>
  match m with
  | Returns a => Returns (f a)
  | Raises e => Raises e
  end.

(** ** Module constants *)

Definition DIGIT_COUNT : Z := 4.
Definition RED_COLOR : Z := 198.
Definition PURPLE : Z := 207.
Definition BLUE : Z := 33.
Definition GREEN : Z := 118.

(** ** Built-in list operations used by the source *)

(** [x in l] on a list of ints. *)
Definition list_contains (x : Z) (l : list Z) : bool := bool_decide (x ∈ l).

(** [l.remove(x)]: drops the first element equal to [x]; raises
    [ValueError] when there is none. *)
Fixpoint list_remove (x : Z) (l : list Z) : outcome (list Z) :=
  match l with
  | [] => Raises ValueError
  | y :: l' =>
      if bool_decide (y = x) then Returns l'
      else l'' ← list_remove x l'; Returns (y :: l'')
  end.

(** ** evaluate_guess, on list values *)

(** First loop: [for _pos, (secret_digit, guess_digit) in
    enumerate(zip(secret, guess))].  [zip] stops at the shorter list. *)
Fixpoint position_pass (pairs : list (Z * Z)) (bulls : Z)
    (unmatched_secret unmatched_guess : list Z) : Z * list Z * list Z :=
  match pairs with
  | [] => (bulls, unmatched_secret, unmatched_guess)
  | (secret_digit, guess_digit) :: rest =>
      if bool_decide (secret_digit = guess_digit) then
        position_pass rest (bulls + 1) unmatched_secret unmatched_guess
      else
        position_pass rest bulls
          (unmatched_secret ++ [secret_digit]) (unmatched_guess ++ [guess_digit])
  end.

(** Second loop: [for digit in unmatched_guess]. *)
Fixpoint cow_pass (unmatched_guess : list Z) (cows : Z)
    (unmatched_secret : list Z) : outcome (Z * list Z) :=
  match unmatched_guess with
  | [] => Returns (cows, unmatched_secret)
  | digit :: rest =>
      if list_contains digit unmatched_secret then
        unmatched_secret' ← list_remove digit unmatched_secret;
        cow_pass rest (cows + 1) unmatched_secret'
      else cow_pass rest cows unmatched_secret
  end.

Definition evaluate_guess (secret guess : list Z) : outcome (Z * Z) :=
  let '(bulls, unmatched_secret, unmatched_guess) :=
    position_pass (zip secret guess) 0 [] [] in
  '(cows, _) ← cow_pass unmatched_guess 0 unmatched_secret;
  Returns (bulls, cows).

(** ** evaluate_guess, on a store of list objects

    The arguments are references to list objects; the two working lists
    are allocated by the call.  A [for] loop over a list holds the
    reference and an index and reads the live object at every step, so a
    loop is given fuel: the length of the iterated list on entry, plus one
    for the step that finds it exhausted.  [None] means the fuel ran out. *)

Definition loc : Type := positive.
Abbreviation store := (gmap loc (list Z)).

(** [r = []]: a new list object at an unused address. *)
Definition new_list (h : store) : loc * store :=
  let r := fresh (dom h) in (r, <[r := []]> h).

(** [r.append(x)]. *)
Definition append_at (r : loc) (x : Z) (h : store) : store :=
  <[r := (h !!! r) ++ [x]]> h.

(** [r.remove(x)]. *)
Definition remove_at (r : loc) (x : Z) (h : store) : outcome store :=
  l ← list_remove x (h !!! r); Returns (<[r := l]> h).

Fixpoint position_loop (fuel : nat) (secret guess unmatched_secret unmatched_guess : loc)
    (i : nat) (bulls : Z) (h : store) : option (Z * store) :=
  match fuel with
  | O => None
  | S fuel' =>
      match (h !!! secret) !! i with
      | None => Some (bulls, h)
      | Some secret_digit =>
          match (h !!! guess) !! i with
          | None => Some (bulls, h)
          | Some guess_digit =>
              if bool_decide (secret_digit = guess_digit) then
                position_loop fuel' secret guess unmatched_secret unmatched_guess
                  (S i) (bulls + 1) h
              else
                position_loop fuel' secret guess unmatched_secret unmatched_guess
                  (S i) bulls
                  (append_at unmatched_guess guess_digit
                     (append_at unmatched_secret secret_digit h))
          end
      end
  end.

Fixpoint cow_loop (fuel : nat) (unmatched_secret unmatched_guess : loc)
    (i : nat) (cows : Z) (h : store) : option (outcome (Z * store)) :=
  match fuel with
  | O => None
  | S fuel' =>
      match (h !!! unmatched_guess) !! i with
      | None => Some (Returns (cows, h))
      | Some digit =>
          if list_contains digit (h !!! unmatched_secret) then
            match remove_at unmatched_secret digit h with
            | Returns h' => cow_loop fuel' unmatched_secret unmatched_guess (S i) (cows + 1) h'
            | Raises e => Some (Raises e)
            end
          else cow_loop fuel' unmatched_secret unmatched_guess (S i) cows h
      end
  end.

Definition evaluate_guess_store (secret guess : loc) (h : store)
    : option (outcome (Z * Z * store)) :=
  let '(unmatched_secret, h) := new_list h in
  let '(unmatched_guess, h) := new_list h in
  '(bulls, h) ← position_loop (S (length (h !!! secret)))
                  secret guess unmatched_secret unmatched_guess 0 0 h;
  r ← cow_loop (S (length (h !!! unmatched_guess)))
        unmatched_secret unmatched_guess 0 0 h;
  Some ('(cows, h) ← r; Returns (bulls, cows, h)).

(** A ghost reading of the second loop: the digits that were credited as
    cows, in the order the loop credited them. *)
Fixpoint cow_credits (unmatched_guess unmatched_secret : list Z) : list Z :=
  match unmatched_guess with
  | [] => []
  | digit :: rest =>
      if list_contains digit unmatched_secret then
        match list_remove digit unmatched_secret with
        | Returns unmatched_secret' => digit :: cow_credits rest unmatched_secret'
        | Raises _ => []
        end
      else cow_credits rest unmatched_secret
  end.

(** The two working lists as the first loop leaves them. *)
Definition unmatched (secret guess : list Z) : list Z * list Z :=
  let '(_, unmatched_secret, unmatched_guess) :=
    position_pass (zip secret guess) 0 [] [] in
  (unmatched_secret, unmatched_guess).

(** Number of elements of [l] equal to [x] ([l.count(x)]). *)
Definition count (x : Z) (l : list Z) : nat :=
  length (filter (fun y => y = x) l).

(** ** generate_number

    [random.sample(range(0, 10), DIGIT_COUNT)] is the only source of
    randomness; the drawn list is taken as an argument.  [is_sample k l]
    says that [l] is a possible result of [random.sample(range(0, 10), k)]:
    [k] pairwise distinct elements of 0..9. *)

Definition is_sample (k : Z) (l : list Z) : Prop :=
  Z.of_nat (length l) = k ∧ NoDup l ∧ Forall (fun d => 0 ≤ d ≤ 9) l.

(** [l[i]] for an index [i ≥ 0]. *)
Definition list_get (l : list Z) (i : nat) : outcome Z :=
  match l !! i with
  | Some x => Returns x
  | None => Raises IndexError
  end.

(** [range(lo, hi)] as the list of its indices. *)
Definition range (lo hi : Z) : list nat :=
  seq (Z.to_nat lo) (Z.to_nat (hi - lo)).

(** [digits[0], digits[i] = digits[i], digits[0]]: the right-hand side is
    read first, then position 0 and position [i] are assigned in turn. *)
Definition swap_first (i : nat) (digits : list Z) : outcome (list Z) :=
  di ← list_get digits i;
  d0 ← list_get digits 0;
  Returns (<[i := d0]> (<[0%nat := di]> digits)).

(** [for i in range(1, DIGIT_COUNT): if digits[i] != 0: swap; break]. *)
Fixpoint repair_loop (indices : list nat) (digits : list Z) : outcome (list Z) :=
  match indices with
  | [] => Returns digits
  | i :: rest =>
      di ← list_get digits i;
      if bool_decide (di ≠ 0) then swap_first i digits
      else repair_loop rest digits
  end.

Definition generate_number (sample : list Z) : outcome (list Z) :=
  let digits := sample in
  d0 ← list_get digits 0;
  if bool_decide (d0 = 0) then repair_loop (range 1 DIGIT_COUNT) digits
  else Returns digits.

(** ** Strings *)

Open Scope string_scope.
Open Scope list_scope.
Open Scope Z_scope.

(** The characters of a string, in order. *)
Definition chars (s : string) : list ascii := list_ascii_of_string s.

(** The ASCII digits [0]..[9]. *)
Definition is_decimal (c : ascii) : bool :=
  let n := N_of_ascii c in ((48 <=? n) && (n <=? 57))%N.

(** [c.isdigit()] for one character: Unicode's Numeric_Type is Decimal or
    Digit.  Below U+0100 these are [0]..[9] and the superscripts U+00B2,
    U+00B3 and U+00B9.  Above U+00FF, outside the strings modelled,
    [isdigit] accepts more: circled digits, the digits of other scripts.
    What is proved about lines of digits is therefore stated for lines
    whose characters are among [0]..[9] ([all_decimal], [plain_digits]),
    not for lines without superscripts. *)
Definition char_isdigit (c : ascii) : bool :=
  let n := N_of_ascii c in
  (is_decimal c || (n =? 178) || (n =? 179) || (n =? 185))%N.

(** [s.isdigit()]: at least one character, and all of them digits. *)
Definition isdigit (s : string) : bool :=
  negb (bool_decide (s = "")) && forallb char_isdigit (chars s).

(** [len(s)]. *)
Definition len (s : string) : Z := Z.of_nat (String.length s).

(** [len(set(s))]. *)
Definition len_set (s : string) : Z :=
  Z.of_nat (size (list_to_set (chars s) : gset ascii)).

(** [str(n)] for an int. *)
Definition str (n : Z) : string := pretty n.

(** [int(d)] for a string [d] of one character below U+0100: the value
    of an ASCII digit, [ValueError] for every other character.  (Above
    U+00FF, outside the strings modelled, [int] also reads the decimal
    digits of other scripts.) *)
Definition int_of_char (d : ascii) : outcome Z :=
  if is_decimal d then Returns (Z.of_N (N_of_ascii d) - 48)
  else Raises ValueError.

(** [[int(d) for d in s]]. *)
Fixpoint ints_of_chars (l : list ascii) : outcome (list Z) :=
  match l with
  | [] => Returns []
  | d :: rest =>
      x ← int_of_char d; xs ← ints_of_chars rest; Returns (x :: xs)
  end.

(** [s * n]. *)
Fixpoint repeat_string (s : string) (n : nat) : string :=
  match n with
  | O => ""
  | S n' => s +:+ repeat_string s n'
  end.

(** [''.join(l)]. *)
Definition join (l : list string) : string := fold_right String.append "" l.

Definition ESC : string := String (ascii_of_nat 27) "".

Definition colored_text (text : string) (color_code : Z) : string :=
  ESC +:+ "[38;5;" +:+ str color_code +:+ "m" +:+ text +:+ ESC +:+ "[0m".

Definition line : string := repeat_string (colored_text "-" BLUE) 50.

(** ** is_valid_input *)

Definition msg_digits : string := "Input must contain only digits.".
Definition msg_length : string :=
  "Input must be " +:+ str DIGIT_COUNT +:+ " digits long.".
Definition msg_zero : string := "Number cannot start with zero.".
Definition msg_unique : string := "Digits must be unique.".

(** [errors.append(msg)] when [cond] holds. *)
Definition append_if (cond : bool) (msg : string) (errors : list string) : list string :=
  if cond then errors ++ [msg] else errors.

(** [user_input and user_input[0] == "0"]: the index is read only when
    the string is not empty. *)
Definition starts_with_zero (user_input : string) : bool :=
  negb (bool_decide (user_input = "")) &&
  bool_decide (String.get 0 user_input = Some "0"%char).

Definition is_valid_input (user_input : string) : bool * list string :=
  let errors := [] in
  let errors := append_if (negb (isdigit user_input)) msg_digits errors in
  let errors := append_if (negb (bool_decide (len user_input = DIGIT_COUNT)))
                  msg_length errors in
  let errors := append_if (starts_with_zero user_input) msg_zero errors in
  let errors := append_if (negb (bool_decide (len_set user_input = len user_input)))
                  msg_unique errors in
  (bool_decide (length errors = 0%nat), errors).

(** ** pluralize

    [suffix] and [show_count] are optional: [None] stands for an argument
    the caller leaves out, which takes the default of the signature. *)

Definition pluralize (count : Z) (singular : string)
    (suffix : option string) (show_count : option bool) : string :=
  let suffix := default "s" suffix in
  let show_count := default true show_count in
  let word := if bool_decide (count = 1) then singular else singular +:+ suffix in
  if show_count then str count +:+ " " +:+ word else word.

(** ** play_game

    [input()] either returns a line or raises [KeyboardInterrupt] or
    [EOFError]; the lines typed are the input of the model.  [time.time()]
    is read once before the loop and once at the win; both readings are
    arguments, and the line that prints their rounded difference is kept
    as [PrintElapsed] (floats are not modelled). *)

Section GameLoop.
Variable time : Type.

Record session : Type := Session {
  secret : list Z;
  attempts : Z;
  start_time : time
}.

Inductive input_result : Type :=
  | Line (user_input : string)
  | Interrupted.

Inductive output : Type :=
  | Prompt (s : string)
  | Print (s : string)
  | PrintElapsed (start_time end_time : time).

(** How one pass through the body of [while True] ends: [continue] or
    the end of the body, [break], [exit()], or an exception nobody
    catches. *)
Inductive control : Type :=
  | Continue (st : session)
  | Break (st : session)
  | Exit
  | Uncaught (e : exn).

Definition NL : string := String (ascii_of_nat 10) "".

Definition goodbye : string :=
  NL +:+ "Game interrupted by user (Ctrl+C)," +:+ NL +:+
  "or input ended unexpectedly (Ctrl+Z / Ctrl+D). Goodbye!".

(** The body after a guess was scored. *)
Definition report (user_name user_input : string) (end_time : time)
    (st : session) (bulls cows : Z) : list output * control :=
  let darts := repeat_string (colored_text ">" PURPLE) 3 in
  let out :=
    [ Print (darts +:+ " " +:+ user_input);
      Print (pluralize bulls "bull" None None +:+ ", " +:+
             pluralize cows "cow" None None);
      Print line ] in
  if bool_decide (bulls = DIGIT_COUNT) then
    (out ++
     [ Print (colored_text "Congratulations!" GREEN);
       Print line;
       Print ("Secret number is: " +:+ join (str <$> secret st));
       Print ("Your " +:+ pluralize (attempts st) "attempt" None (Some false) +:+
              ": " +:+ str (attempts st));
       PrintElapsed (start_time st) end_time;
       Print line;
       Print (colored_text (user_name +:+ " that's amazing!") GREEN);
       Print line ],
     Break st)
  else (out, Continue st).

Definition iteration (user_name : string) (end_time : time)
    (st : session) (inp : input_result) : list output * control :=
  match inp with
  | Interrupted =>
      ([Prompt "Enter a number: "; Print (colored_text goodbye RED_COLOR)], Exit)
  | Line user_input =>
      let '(is_valid, messages) := is_valid_input user_input in
      if negb is_valid then
        ([Prompt "Enter a number: "] ++
         ((fun msg => Print (colored_text msg RED_COLOR)) <$> messages) ++
         [Print line],
         Continue st)
      else
        match ints_of_chars (chars user_input) with
        | Raises e => ([Prompt "Enter a number: "], Uncaught e)
        | Returns guess =>
            let st := Session (secret st) (attempts st + 1) (start_time st) in
            match evaluate_guess (secret st) guess with
            | Raises e => ([Prompt "Enter a number: "], Uncaught e)
            | Returns (bulls, cows) =>
                let '(out, c) := report user_name user_input end_time st bulls cows in
                (Prompt "Enter a number: " :: out, c)
            end
        end
  end.

(** The [while True] loop on the lines typed so far; [Continue st] as
    the result means that the loop is waiting at the prompt. *)
Fixpoint loop (user_name : string) (end_time : time)
    (st : session) (inputs : list input_result) : list output * control :=
  match inputs with
  | [] => ([], Continue st)
  | inp :: rest =>
      let '(out, c) := iteration user_name end_time st inp in
      match c with
      | Continue st' =>
          let '(out', c') := loop user_name end_time st' rest in
          (out ++ out', c')
      | _ => (out, c)
      end
  end.

Definition play_game (user_name : string) (sample : list Z)
    (start_time end_time : time) (inputs : list input_result)
    : list output * control :=
  match generate_number sample with
  | Raises e => ([], Uncaught e)
  | Returns secret =>
      loop user_name end_time (Session secret 0 start_time) inputs
  end.

(** The submissions among [inputs] that pass validation. *)
Definition accepted (inputs : list input_result) : list string :=
  omap (fun inp =>
          match inp with
          | Line s => if fst (is_valid_input s) then Some s else None
          | Interrupted => None
          end) inputs.
End GameLoop.

Arguments secret {time} _.
Arguments attempts {time} _.
Arguments start_time {time} _.
Arguments Session {time} _ _ _.
Arguments Prompt {time} _.
Arguments Print {time} _.
Arguments PrintElapsed {time} _ _.
Arguments Continue {time} _.
Arguments Break {time} _.
Arguments Exit {time}.
Arguments Uncaught {time} _.
Arguments report {time} _ _ _ _ _ _.
Arguments iteration {time} _ _ _ _.
Arguments loop {time} _ _ _ _.
Arguments play_game {time} _ _ _ _ _.

(** ** The validator in the words of the specification

    Four checks on the raw string, and one message per failed check in
    the order of the checks.  [validate_spec] is the reading that is
    compared with [is_valid_input]. *)

Definition all_decimal (s : string) : bool := forallb is_decimal (chars s).

Definition length_ok (s : string) : bool := bool_decide (len s = DIGIT_COUNT).

Definition no_leading_zero (s : string) : bool :=
  negb (bool_decide (String.get 0 s = Some "0"%char)).

Definition all_distinct (s : string) : bool := bool_decide (NoDup (chars s)).

Definition messages_of (digits length zero distinct : bool) : list string :=
  (if digits then [] else [msg_digits]) ++
  (if length then [] else [msg_length]) ++
  (if zero then [] else [msg_zero]) ++
  (if distinct then [] else [msg_unique]).

Definition validate_spec (s : string) : bool * list string :=
  (all_decimal s && length_ok s && no_leading_zero s && all_distinct s,
   messages_of (all_decimal s) (length_ok s) (no_leading_zero s) (all_distinct s)).

(** Strings in which every character that [isdigit] accepts is one of
    the ASCII digits [0]..[9]. *)
Definition plain_digits (s : string) : Prop :=
  ∀ c, c ∈ chars s → char_isdigit c = true → is_decimal c = true.

(** The line 12²3, with U+00B2 as its third character. *)
Definition superscript_line : string := "12" +:+ String (ascii_of_nat 178) "3".

(** ** pokus_3.py: the earlier validator and loop

    pokus_3.py has the same functions as pokus_3.1.py except for the
    validator, which returns one boolean, and for what the loop prints on
    a rejected line. *)

(** [s[i]] for an index [i ≥ 0] of a string. *)
Definition str_get (s : string) (i : nat) : outcome ascii :=
  match String.get i s with
  | Some c => Returns c
  | None => Raises IndexError
  end.

(** The four operands of [and] are evaluated from left to right, and the
    first false one ends the evaluation. *)
Definition is_valid_input_3 (user_input : string) : outcome bool :=
  if negb (isdigit user_input) then Returns false
  else if negb (bool_decide (len user_input = DIGIT_COUNT)) then Returns false
  else if negb (bool_decide (len_set user_input = DIGIT_COUNT)) then Returns false
  else c ← str_get user_input 0; Returns (negb (bool_decide (c = "0"%char))).

Definition msg_invalid_3 : string :=
  "Input must be a " +:+ str DIGIT_COUNT +:+ "-digit number, " +:+
  "unique digits, not starting with zero.".

Section Drivers.
Variable time : Type.

Definition iteration_3 (user_name : string) (end_time : time)
    (st : session time) (inp : input_result) : list (output time) * control time :=
  match inp with
  | Interrupted =>
      ([Prompt "Enter a number: "; Print (colored_text goodbye RED_COLOR)], Exit)
  | Line user_input =>
      match is_valid_input_3 user_input with
      | Raises e => ([Prompt "Enter a number: "], Uncaught e)
      | Returns is_valid =>
          if negb is_valid then
            ([Prompt "Enter a number: ";
              Print (colored_text msg_invalid_3 RED_COLOR);
              Print line],
             Continue st)
          else
            match ints_of_chars (chars user_input) with
            | Raises e => ([Prompt "Enter a number: "], Uncaught e)
            | Returns guess =>
                let st := Session (secret st) (attempts st + 1) (start_time st) in
                match evaluate_guess (secret st) guess with
                | Raises e => ([Prompt "Enter a number: "], Uncaught e)
                | Returns (bulls, cows) =>
                    let '(out, c) :=
                      report user_name user_input end_time st bulls cows in
                    (Prompt "Enter a number: " :: out, c)
                end
            end
      end
  end.

Fixpoint loop_3 (user_name : string) (end_time : time)
    (st : session time) (inputs : list input_result)
    : list (output time) * control time :=
  match inputs with
  | [] => ([], Continue st)
  | inp :: rest =>
      let '(out, c) := iteration_3 user_name end_time st inp in
      match c with
      | Continue st' =>
          let '(out', c') := loop_3 user_name end_time st' rest in
          (out ++ out', c')
      | _ => (out, c)
      end
  end.

(** ** main

    The name is read outside any [try]: when [input()] raises there,
    nothing catches the exception and no game starts. *)

Inductive main_end : Type :=
  | NameInterrupted
  | Played (c : control time).

Definition greeting : string :=
  "I've generated a random " +:+ str DIGIT_COUNT +:+ " digit number for you." +:+
  NL +:+ "    Let's play a bulls and cows game.".

Definition main (name_input : input_result) (sample : list Z)
    (start_time end_time : time) (inputs : list input_result)
    : list (output time) * main_end :=
  match name_input with
  | Interrupted => ([Prompt "enter your name: "], NameInterrupted)
  | Line user_name =>
      let '(out, c) := play_game user_name sample start_time end_time inputs in
      ([ Prompt "enter your name: ";
         Print line;
         Print ("Hi " +:+ user_name +:+ "!");
         Print line;
         Print greeting;
         Print line ] ++ out,
       Played c)
  end.
End Drivers.

Arguments iteration_3 {time} _ _ _ _.
Arguments loop_3 {time} _ _ _ _.
Arguments NameInterrupted {time}.
Arguments Played {time} _.
Arguments main {time} _ _ _ _ _.

(** ** The digits of a list as a multiset *)

Definition digit_multiset (l : list Z) : gmultiset Z := list_to_set_disj l.

(** The value [int] gives to a decimal digit character. *)
Definition digit_value (c : ascii) : Z := Z.of_N (N_of_ascii c) - 48.

(** * Properties *)

(** Closes a decidable closed goal by evaluating its decision procedure. *)
Ltac by_compute := apply (bool_decide_unpack _); vm_compute; exact I.

(** ** Built-in list operations *)

Lemma list_contains_true (x : Z) (l : list Z) :
  list_contains x l = true ↔ x ∈ l.
Proof. unfold list_contains. apply bool_decide_eq_true. Qed.

Lemma list_contains_false (x : Z) (l : list Z) :
  list_contains x l = false ↔ x ∉ l.
Proof. unfold list_contains. apply bool_decide_eq_false. Qed.

Lemma count_cons (x y : Z) (l : list Z) :
  count x (y :: l) = ((if bool_decide (y = x) then 1 else 0) + count x l)%nat.
Proof.
  unfold count. rewrite filter_cons.
  case_bool_decide; destruct (decide (y = x)); simpl; congruence.
Qed.

Lemma count_zero (x : Z) (l : list Z) : x ∉ l → count x l = 0%nat.
Proof.
  induction l as [|y l IH]; intros Hx; [done|].
  rewrite count_cons. apply not_elem_of_cons in Hx as [Hne Hx].
  rewrite bool_decide_eq_false_2 by congruence. by rewrite IH.
Qed.

Lemma count_pos (x : Z) (l : list Z) : x ∈ l → (0 < count x l)%nat.
Proof.
  induction l as [|y l IH]; intros Hx; [by apply elem_of_nil in Hx|].
  rewrite count_cons. case_bool_decide; [lia|].
  apply elem_of_cons in Hx as [->|Hx]; [done|]. specialize (IH Hx). lia.
Qed.

Lemma count_NoDup (x : Z) (l : list Z) : NoDup l → x ∈ l → count x l = 1%nat.
Proof.
  induction 1 as [|y l Hy Hl IH]; intros Hx; [by apply elem_of_nil in Hx|].
  rewrite count_cons. case_bool_decide as Hyx.
  - subst y. by rewrite count_zero.
  - apply elem_of_cons in Hx as [->|Hx]; [done|]. by rewrite IH.
Qed.

(** [l.remove(x)] succeeds when [x in l], and takes out one [x]. *)
Lemma list_remove_elem (x : Z) (l : list Z) :
  x ∈ l →
  ∃ l', list_remove x l = Returns l' ∧ length l = S (length l') ∧
        ∀ v, count v l = ((if bool_decide (x = v) then 1 else 0) + count v l')%nat.
Proof.
  induction l as [|y l IH]; intros Hx; [by apply elem_of_nil in Hx|].
  simpl. case_bool_decide as Hyx.
  - subst y. exists l. split_and!; [done..|]. intros v. by rewrite count_cons.
  - apply elem_of_cons in Hx as [->|Hx]; [done|].
    destruct (IH Hx) as (l' & -> & Hlen & Hcount). exists (y :: l').
    split_and!; [done|simpl; lia|]. intros v. rewrite !count_cons, Hcount. lia.
Qed.

Lemma list_remove_absent (x : Z) (l : list Z) :
  x ∉ l → list_remove x l = Raises ValueError.
Proof.
  induction l as [|y l IH]; intros Hx; [done|].
  apply not_elem_of_cons in Hx as [Hne Hx]. simpl.
  rewrite bool_decide_eq_false_2 by congruence. by rewrite IH.
Qed.

(** ** The two loops of evaluate_guess *)

(** The first loop in closed form: the bulls are the positions that agree,
    and the working lists collect the two sides of the others. *)
Lemma position_pass_closed (pairs : list (Z * Z)) :
  ∀ bulls us ug,
    position_pass pairs bulls us ug =
      (bulls + Z.of_nat (length (filter (fun p => p.1 = p.2) pairs)),
       us ++ (filter (fun p => p.1 ≠ p.2) pairs).*1,
       ug ++ (filter (fun p => p.1 ≠ p.2) pairs).*2).
Proof.
  induction pairs as [|[s g] pairs IH]; intros bulls us ug; simpl.
  - by rewrite Z.add_0_r, !app_nil_r.
  - rewrite !filter_cons. simpl. case_bool_decide as Hsg.
    + rewrite decide_True, decide_False by tauto. rewrite IH. simpl.
      do 2 f_equal. lia.
    + rewrite decide_False, decide_True by tauto. rewrite IH. simpl.
      by rewrite <- !app_assoc.
Qed.

Lemma filter_eq_neq_length (pairs : list (Z * Z)) :
  (length (filter (fun p => p.1 = p.2) pairs) +
   length (filter (fun p => p.1 ≠ p.2) pairs) = length pairs)%nat.
Proof.
  induction pairs as [|[s g] pairs IH]; [done|].
  rewrite !filter_cons. simpl.
  destruct (decide (s = g)); [rewrite decide_False by tauto|rewrite decide_True by tauto];
    simpl; lia.
Qed.

Lemma filter_eq_all (pairs : list (Z * Z)) :
  length (filter (fun p => p.1 = p.2) pairs) = length pairs ↔
  Forall (fun p => p.1 = p.2) pairs.
Proof.
  induction pairs as [|[s g] pairs IH]; [by split; [constructor|]|].
  rewrite filter_cons. simpl. rewrite Forall_cons. simpl.
  pose proof (length_filter (fun p : Z * Z => p.1 = p.2) pairs).
  destruct (decide (s = g)); simpl; [|lia].
  split; [intros Hl; split; [done|apply IH; lia]|intros [_ Hall]; f_equal; by apply IH].
Qed.

Lemma zip_all_equal (secret guess : list Z) :
  length secret = length guess →
  Forall (fun p : Z * Z => p.1 = p.2) (zip secret guess) ↔ guess = secret.
Proof.
  revert guess. induction secret as [|s secret IH]; intros [|g guess] Hlen;
    try discriminate; simpl; [by split; [|constructor]|].
  rewrite Forall_cons. simpl. rewrite IH by (simpl in Hlen; lia).
  split; [by intros [-> ->]|by intros [= -> ->]].
Qed.

(** The second loop never raises; it counts the credited digits. *)
Lemma cow_pass_credits (ug : list Z) :
  ∀ cows us, ∃ us',
    cow_pass ug cows us = Returns (cows + Z.of_nat (length (cow_credits ug us)), us').
Proof.
  induction ug as [|d ug IH]; intros cows us; simpl.
  - exists us. by rewrite Z.add_0_r.
  - destruct (list_contains d us) eqn:Hd.
    + apply list_contains_true, list_remove_elem in Hd as (us1 & -> & _ & _). simpl.
      destruct (IH (cows + 1) us1) as [us' ->]. exists us'. simpl. do 2 f_equal. lia.
    + apply IH.
Qed.

Lemma cow_credits_length (ug : list Z) :
  ∀ us, (length (cow_credits ug us) ≤ length ug)%nat.
Proof.
  induction ug as [|d ug IH]; intros us; simpl; [done|].
  destruct (list_contains d us) eqn:Hd.
  - apply list_contains_true, list_remove_elem in Hd as (us1 & -> & _ & _). simpl.
    specialize (IH us1). lia.
  - specialize (IH us). lia.
Qed.

(** Every value is credited as often as it occurs on both sides. *)
Lemma cow_credits_count (v : Z) (ug : list Z) :
  ∀ us, count v (cow_credits ug us) = (count v ug `min` count v us)%nat.
Proof.
  induction ug as [|d ug IH]; intros us; simpl; [done|].
  rewrite (count_cons v d ug).
  destruct (list_contains d us) eqn:Hd.
  - apply list_contains_true in Hd. pose proof (count_pos _ _ Hd) as Hpos.
    apply list_remove_elem in Hd as (us1 & -> & _ & Hcount).
    rewrite count_cons, IH, (Hcount v). case_bool_decide; lia.
  - apply list_contains_false in Hd. rewrite IH. case_bool_decide as Hdv; [|done].
    subst d. rewrite (count_zero v us) by done. lia.
Qed.

Lemma evaluate_guess_closed (secret guess : list Z) :
  let pairs := zip secret guess in
  let differ := filter (fun p : Z * Z => p.1 ≠ p.2) pairs in
  evaluate_guess secret guess =
    Returns (Z.of_nat (length (filter (fun p : Z * Z => p.1 = p.2) pairs)),
             Z.of_nat (length (cow_credits differ.*2 differ.*1))).
Proof.
  intros pairs differ. unfold evaluate_guess.
  rewrite position_pass_closed. simpl.
  destruct (cow_pass_credits differ.*2 0 differ.*1) as [us' Hcow].
  fold pairs. fold differ. by rewrite Hcow.
Qed.

(** C1. For a secret and a guess of equal length N, evaluate_guess returns
    a pair (bulls, cows) with bulls >= 0, cows >= 0 and bulls + cows <= N;
    bulls = N exactly when the guess equals the secret, and then the
    result is (N, 0). *)
Theorem evaluate_guess_score (secret guess : list Z) :
  length secret = length guess →
  let N := Z.of_nat (length secret) in
  ∃ bulls cows,
    evaluate_guess secret guess = Returns (bulls, cows) ∧
    0 ≤ bulls ∧ 0 ≤ cows ∧ bulls + cows ≤ N ∧
    (bulls = N ↔ guess = secret) ∧
    (guess = secret → (bulls, cows) = (N, 0)).
Proof.
  intros Hlen N. rewrite evaluate_guess_closed.
  set (pairs := zip secret guess).
  set (differ := filter (fun p : Z * Z => p.1 ≠ p.2) pairs).
  set (agree := filter (fun p : Z * Z => p.1 = p.2) pairs).
  assert (Hpairs : length pairs = length secret).
  { unfold pairs. rewrite length_zip. lia. }
  pose proof (filter_eq_neq_length pairs) as Hsplit. fold agree differ in Hsplit.
  pose proof (cow_credits_length differ.*2 differ.*1) as Hcows.
  rewrite length_fmap in Hcows.
  assert (Hiff : Z.of_nat (length agree) = N ↔ guess = secret).
  { rewrite <- (zip_all_equal secret guess Hlen). fold pairs.
    rewrite <- filter_eq_all. fold agree. unfold N. lia. }
  eexists _, _. split; [reflexivity|]. split_and!; [lia|lia|lia|exact Hiff|].
  intros Heq. apply Hiff in Heq. f_equal; [done|]. lia.
Qed.

Lemma evaluate_guess_score_witness :
  ∃ bulls cows,
    evaluate_guess [1; 2; 3; 4] [1; 2; 4; 3] = Returns (bulls, cows) ∧
    0 ≤ bulls ∧ 0 ≤ cows ∧ bulls + cows ≤ 4 ∧
    (bulls = 4 ↔ [1; 2; 4; 3] = [1; 2; 3; 4]) ∧
    ([1; 2; 4; 3] = [1; 2; 3; 4] → (bulls, cows) = (4, 0)).
Proof. apply (evaluate_guess_score [1; 2; 3; 4] [1; 2; 4; 3]). reflexivity. Defined.

(** C2. The three scenarios: secret 1234 against 1243 scores (2, 2),
    secret 1234 against 4321 scores (0, 4), and secret 5678 against 5678
    scores (4, 0). *)
Theorem evaluate_guess_scenarios :
  evaluate_guess [1; 2; 3; 4] [1; 2; 4; 3] = Returns (2, 2) ∧
  evaluate_guess [1; 2; 3; 4] [4; 3; 2; 1] = Returns (0, 4) ∧
  evaluate_guess [5; 6; 7; 8] [5; 6; 7; 8] = Returns (4, 0).
Proof. split_and!; reflexivity. Qed.

(** ** Cows and repeated digits *)

Lemma unmatched_closed (secret guess : list Z) :
  unmatched secret guess =
    ((filter (fun p : Z * Z => p.1 ≠ p.2) (zip secret guess)).*1,
     (filter (fun p : Z * Z => p.1 ≠ p.2) (zip secret guess)).*2).
Proof. unfold unmatched. by rewrite position_pass_closed. Qed.

(** A value that is at no matching position occurs in the working lists
    as often as in the zipped inputs. *)
Lemma count_differ (d : Z) (pairs : list (Z * Z)) :
  (∀ p, p ∈ pairs → ¬ (p.1 = d ∧ p.2 = d)) →
  count d (filter (fun p : Z * Z => p.1 ≠ p.2) pairs).*1 = count d pairs.*1 ∧
  count d (filter (fun p : Z * Z => p.1 ≠ p.2) pairs).*2 = count d pairs.*2.
Proof.
  induction pairs as [|[s g] pairs IH]; intros Hd; [done|].
  destruct IH as [IH1 IH2].
  { intros p Hp. apply Hd. by right. }
  specialize (Hd (s, g) ltac:(by left)). simpl in Hd.
  rewrite filter_cons. simpl. destruct (decide (s ≠ g)) as [Hsg|Hsg].
  - rewrite !fmap_cons, !count_cons, IH1, IH2. done.
  - assert (s = g) as <- by (destruct (decide (s = g)); tauto).
    rewrite !count_cons, IH1, IH2. simpl.
    rewrite bool_decide_eq_false_2 by tauto. done.
Qed.

(** C3. With a secret of pairwise-distinct digits and a guess of the same
    length, the cows are the digits the second loop credits, every value
    is credited at most as often as it occurs in the unmatched-secret
    list (exactly as often as it occurs on both sides), and a digit that
    is twice in the guess, once in the secret and at no matching position
    is credited exactly once. *)
Theorem cow_credited_once (secret guess : list Z) (d : Z) :
  NoDup secret → length secret = length guess →
  let us := (unmatched secret guess).1 in
  let ug := (unmatched secret guess).2 in
  (∃ bulls, evaluate_guess secret guess =
              Returns (bulls, Z.of_nat (length (cow_credits ug us)))) ∧
  (∀ v, count v (cow_credits ug us) = (count v ug `min` count v us)%nat ∧
        (count v (cow_credits ug us) ≤ count v us)%nat) ∧
  (d ∈ secret → count d guess = 2%nat →
   (∀ i, secret !! i = Some d → guess !! i ≠ Some d) →
   count d (cow_credits ug us) = 1%nat).
Proof.
  intros Hnodup Hlen us ug. subst us ug. rewrite unmatched_closed. simpl.
  split_and!.
  - eexists. apply evaluate_guess_closed.
  - intros v. rewrite cow_credits_count. lia.
  - intros Hd Hguess Hpos. rewrite cow_credits_count.
    destruct (count_differ d (zip secret guess)) as [H1 H2].
    { intros [s g] Hp [Hs Hg]. simpl in *. subst s g.
      apply list_elem_of_lookup in Hp as [i Hi].
      apply lookup_zip_with_Some in Hi as (x & y & Heq & Hx & Hy).
      simplify_eq. by apply (Hpos i). }
    rewrite H1, H2, fst_zip, snd_zip by lia.
    rewrite Hguess, (count_NoDup d secret) by done. done.
Qed.

Lemma cow_credited_once_witness :
  count 1 (cow_credits (unmatched [1; 2; 3; 4] [5; 1; 1; 6]).2
                       (unmatched [1; 2; 3; 4] [5; 1; 1; 6]).1) = 1%nat.
Proof.
  refine (proj2 (proj2 (cow_credited_once [1; 2; 3; 4] [5; 1; 1; 6] 1 _ _)) _ _ _).
  - by_compute.
  - reflexivity.
  - by_compute.
  - reflexivity.
  - intros [|[|[|[|[|i]]]]]; simpl; congruence.
Defined.

(** ** evaluate_guess on the store *)

Section Store.
Variables secret guess unmatched_secret unmatched_guess : loc.
Hypothesis Hfresh :
  unmatched_secret ≠ unmatched_guess ∧
  unmatched_secret ≠ secret ∧ unmatched_guess ≠ secret ∧
  unmatched_secret ≠ guess ∧ unmatched_guess ≠ guess.

Lemma append_both (h : store) (us ug us' ug' : list Z) :
  <[unmatched_guess := ug']> (<[unmatched_secret := us']>
    (<[unmatched_guess := ug]> (<[unmatched_secret := us]> h))) =
  <[unmatched_guess := ug']> (<[unmatched_secret := us']> h).
Proof.
  destruct Hfresh as (Hne & _).
  apply map_eq. intros r.
  destruct (decide (r = unmatched_guess)) as [->|?]; [by rewrite !lookup_insert_eq|].
  rewrite (lookup_insert_ne _ unmatched_guess r) by done.
  rewrite (lookup_insert_ne _ unmatched_guess r) by done.
  destruct (decide (r = unmatched_secret)) as [->|?]; [by rewrite !lookup_insert_eq|].
  by rewrite !lookup_insert_ne.
Qed.

(** The first loop on the store does what [position_pass] does on the
    values, writes only the two working lists, and ends within its
    fuel. *)
Lemma position_loop_pass (fuel : nat) :
  ∀ i bulls (h : store) s g us ug,
    h !! secret = Some s → h !! guess = Some g →
    h !! unmatched_secret = Some us → h !! unmatched_guess = Some ug →
    (length s - i < fuel)%nat →
    ∃ bulls' us' ug',
      position_pass (zip (drop i s) (drop i g)) bulls us ug = (bulls', us', ug') ∧
      position_loop fuel secret guess unmatched_secret unmatched_guess i bulls h =
        Some (bulls', <[unmatched_guess := ug']> (<[unmatched_secret := us']> h)).
Proof.
  destruct Hfresh as (Hne & Hs1 & Hs2 & Hg1 & Hg2).
  induction fuel as [|fuel IH]; intros i bulls h s g us ug Hs Hg Hus Hug Hfuel; [lia|].
  cbn [position_loop].
  rewrite (lookup_total_correct _ _ _ Hs), (lookup_total_correct _ _ _ Hg).
  assert (Hid : <[unmatched_guess := ug]> (<[unmatched_secret := us]> h) = h).
  { rewrite (insert_id h unmatched_secret) by done. by apply insert_id. }
  destruct (s !! i) as [sd|] eqn:Hsi.
  2:{ apply lookup_ge_None in Hsi. rewrite (drop_ge s) by lia. simpl.
      eexists _, _, _. split; [reflexivity|]. by rewrite Hid. }
  destruct (g !! i) as [gd|] eqn:Hgi.
  2:{ apply lookup_ge_None in Hgi. rewrite (drop_ge g) by lia.
      rewrite zip_with_nil_r. simpl.
      eexists _, _, _. split; [reflexivity|]. by rewrite Hid. }
  apply lookup_lt_Some in Hsi as Hlt.
  rewrite (drop_S s sd i Hsi), (drop_S g gd i Hgi). simpl.
  case_bool_decide.
  - apply (IH (S i) (bulls + 1) h s g us ug); [done..|lia].
  - destruct (IH (S i) bulls
                (append_at unmatched_guess gd (append_at unmatched_secret sd h))
                s g (us ++ [sd]) (ug ++ [gd])) as (b' & us' & ug' & Hpass & Hloop).
    + unfold append_at. by rewrite !lookup_insert_ne.
    + unfold append_at. by rewrite !lookup_insert_ne.
    + unfold append_at. rewrite lookup_insert_ne, lookup_insert_eq by congruence.
      by rewrite (lookup_total_correct _ _ _ Hus).
    + unfold append_at. rewrite lookup_insert_eq.
      rewrite lookup_total_insert_ne by done.
      by rewrite (lookup_total_correct _ _ _ Hug).
    + lia.
    + exists b', us', ug'. split; [done|]. rewrite Hloop. f_equal. f_equal.
      unfold append_at. apply append_both.
Qed.

(** The second loop on the store does what [cow_pass] does on the
    values and writes only the unmatched-secret list. *)
Lemma cow_loop_pass (fuel : nat) :
  ∀ i cows (h : store) us ug,
    h !! unmatched_secret = Some us → h !! unmatched_guess = Some ug →
    (length ug - i < fuel)%nat →
    ∃ cows' us',
      cow_pass (drop i ug) cows us = Returns (cows', us') ∧
      cow_loop fuel unmatched_secret unmatched_guess i cows h =
        Some (Returns (cows', <[unmatched_secret := us']> h)).
Proof.
  destruct Hfresh as (Hne & _).
  induction fuel as [|fuel IH]; intros i cows h us ug Hus Hug Hfuel; [lia|].
  cbn [cow_loop].
  rewrite (lookup_total_correct _ _ _ Hus), (lookup_total_correct _ _ _ Hug).
  destruct (ug !! i) as [d|] eqn:Hi.
  2:{ apply lookup_ge_None in Hi. rewrite (drop_ge ug) by lia. simpl.
      eexists _, _. split; [reflexivity|]. by rewrite insert_id. }
  apply lookup_lt_Some in Hi as Hlt. rewrite (drop_S ug d i Hi). simpl.
  destruct (list_contains d us) eqn:Hd.
  - unfold remove_at. rewrite (lookup_total_correct _ _ _ Hus).
    apply list_contains_true, list_remove_elem in Hd as (us1 & -> & _ & _). simpl.
    destruct (IH (S i) (cows + 1) (<[unmatched_secret := us1]> h) us1 ug)
      as (c' & us' & Hpass & Hloop).
    + by rewrite lookup_insert_eq.
    + by rewrite lookup_insert_ne.
    + lia.
    + exists c', us'. split; [done|]. rewrite Hloop. by rewrite insert_insert_eq.
  - apply (IH (S i) cows h us ug); [done..|lia].
Qed.
End Store.

Lemma new_list_fresh (h : store) :
  let r := (new_list h).1 in (r ∉ dom h) ∧ (new_list h).2 = <[r := []]> h.
Proof. split; [apply is_fresh|done]. Qed.

(** C8. evaluate_guess leaves both argument lists as they were: run on
    any store in which the two arguments denote lists (they may be the
    same object), the call returns, its result is the score of the two
    lists, and afterwards every list that existed before the call, the
    secret and the guess among them, holds the same elements. *)
Theorem evaluate_guess_store_frame (h : store) (rs rg : loc) (secret guess : list Z) :
  h !! rs = Some secret → h !! rg = Some guess →
  ∃ bulls cows h',
    evaluate_guess_store rs rg h = Some (Returns (bulls, cows, h')) ∧
    evaluate_guess secret guess = Returns (bulls, cows) ∧
    h' !! rs = Some secret ∧ h' !! rg = Some guess ∧
    ∀ r, r ∈ dom h → h' !! r = h !! r.
Proof.
  intros Hs Hg. unfold evaluate_guess_store.
  destruct (new_list_fresh h) as [Hus Hh1].
  destruct (new_list h) as [us h1]. simpl in Hus, Hh1. subst h1.
  destruct (new_list_fresh (<[us := []]> h)) as [Hug Hh2].
  destruct (new_list (<[us := []]> h)) as [ug h2]. simpl in Hug, Hh2. subst h2.
  rewrite dom_insert in Hug.
  assert (Hne : us ≠ ug) by set_solver.
  assert (Hin : ∀ r, r ∈ dom h → us ≠ r ∧ ug ≠ r) by set_solver.
  destruct (Hin rs) as [Hs1 Hs2]; [by apply elem_of_dom|].
  destruct (Hin rg) as [Hg1 Hg2]; [by apply elem_of_dom|].
  set (h2 := <[ug := []]> (<[us := []]> h)).
  assert (Hs' : h2 !! rs = Some secret) by (unfold h2; by rewrite !lookup_insert_ne).
  assert (Hg' : h2 !! rg = Some guess) by (unfold h2; by rewrite !lookup_insert_ne).
  assert (Hus' : h2 !! us = Some [])
    by (unfold h2; rewrite lookup_insert_ne by congruence; by rewrite lookup_insert_eq).
  assert (Hug' : h2 !! ug = Some []) by (unfold h2; by rewrite lookup_insert_eq).
  assert (Hfresh : us ≠ ug ∧ us ≠ rs ∧ ug ≠ rs ∧ us ≠ rg ∧ ug ≠ rg) by done.
  destruct (position_loop_pass rs rg us ug Hfresh (S (length (h2 !!! rs)))
              0%nat 0 h2 secret guess [] [] Hs' Hg' Hus' Hug')
    as (bulls & us1 & ug1 & Hpass & ->).
  { rewrite (lookup_total_correct _ _ _ Hs'). lia. }
  rewrite !drop_0 in Hpass. cbn [mbind option_bind].
  set (h3 := <[ug := ug1]> (<[us := us1]> h2)).
  assert (Hus3 : h3 !! us = Some us1)
    by (unfold h3; rewrite lookup_insert_ne by congruence; by rewrite lookup_insert_eq).
  assert (Hug3 : h3 !! ug = Some ug1) by (unfold h3; by rewrite lookup_insert_eq).
  destruct (cow_loop_pass rs rg us ug Hfresh (S (length (h3 !!! ug))) 0%nat 0 h3 us1 ug1 Hus3 Hug3)
    as (cows & us2 & Hcow & ->).
  { rewrite (lookup_total_correct _ _ _ Hug3). lia. }
  rewrite drop_0 in Hcow. cbn [mbind option_bind outcome_bind].
  exists bulls, cows, (<[us := us2]> h3).
  assert (Hframe : ∀ r, r ∈ dom h → <[us := us2]> h3 !! r = h !! r).
  { intros r Hr. destruct (Hin r Hr). unfold h3, h2. by rewrite !lookup_insert_ne. }
  split_and!; [done| |..].
  - unfold evaluate_guess. rewrite Hpass, Hcow. done.
  - rewrite Hframe, Hs; [done|by apply elem_of_dom].
  - rewrite Hframe, Hg; [done|by apply elem_of_dom].
  - exact Hframe.
Qed.

Lemma evaluate_guess_store_frame_witness :
  let h : store := <[1%positive := [1; 2; 3; 4]]> (<[2%positive := [1; 2; 4; 3]]> ∅) in
  ∃ bulls cows h',
    evaluate_guess_store 1%positive 2%positive h = Some (Returns (bulls, cows, h')) ∧
    evaluate_guess [1; 2; 3; 4] [1; 2; 4; 3] = Returns (bulls, cows) ∧
    h' !! 1%positive = Some [1; 2; 3; 4] ∧ h' !! 2%positive = Some [1; 2; 4; 3] ∧
    ∀ r, r ∈ dom h → h' !! r = h !! r.
Proof.
  intros h.
  apply (evaluate_guess_store_frame h 1%positive 2%positive); reflexivity.
Defined.

(** ** generate_number *)

Lemma range_1_DIGIT_COUNT : range 1 DIGIT_COUNT = [1; 2; 3]%nat.
Proof. reflexivity. Qed.

Lemma is_sample_four (sample : list Z) :
  is_sample DIGIT_COUNT sample → ∃ a b c d, sample = [a; b; c; d].
Proof.
  intros (Hlen & _). unfold DIGIT_COUNT in Hlen.
  destruct sample as [|a [|b [|c [|d [|e sample]]]]]; simpl in Hlen; try lia.
  by exists a, b, c, d.
Qed.

Lemma generate_number_returns (sample : list Z) :
  is_sample DIGIT_COUNT sample → ∃ digits, generate_number sample = Returns digits.
Proof.
  intros Hsample. destruct (is_sample_four sample Hsample) as (a & b & c & d & ->).
  destruct Hsample as (_ & Hnodup & _).
  unfold generate_number. cbn [list_get lookup list_lookup mbind outcome_bind].
  case_bool_decide as Ha; [|by eexists].
  subst a. rewrite range_1_DIGIT_COUNT.
  cbn [repair_loop list_get lookup list_lookup mbind outcome_bind].
  rewrite bool_decide_eq_true_2; [by eexists|].
  apply NoDup_cons in Hnodup as [Hnotin _]. intros ->. apply Hnotin. by left.
Qed.

(** C5. For every possible draw of the sampling step, generate_number
    returns a secret of length 4 with pairwise-distinct digits in 0..9
    and a first digit other than 0.  The secret has the digits of the
    draw; when the first drawn digit is 0 it is the draw with position 0
    exchanged with the first position among 1..3 that holds a nonzero
    digit, and otherwise it is the draw itself. *)
Theorem generate_number_secret (sample : list Z) :
  is_sample DIGIT_COUNT sample →
  ∃ digits,
    generate_number sample = Returns digits ∧
    length digits = 4%nat ∧ NoDup digits ∧ Forall (fun d => 0 ≤ d ≤ 9) digits ∧
    (∃ d0, digits !! 0%nat = Some d0 ∧ d0 ≠ 0) ∧
    digits ≡ₚ sample ∧
    (sample !! 0%nat = Some 0 →
     ∃ i di, (1 ≤ i < 4)%nat ∧ sample !! i = Some di ∧ di ≠ 0 ∧
             (∀ j, (1 ≤ j < i)%nat → sample !! j = Some 0) ∧
             digits = <[i := 0]> (<[0%nat := di]> sample)) ∧
    (sample !! 0%nat ≠ Some 0 → digits = sample).
Proof.
  intros Hsample. destruct (is_sample_four sample Hsample) as (a & b & c & d & ->).
  destruct Hsample as (_ & Hnodup & Hrange).
  unfold generate_number. cbn [list_get lookup list_lookup mbind outcome_bind].
  case_bool_decide as Ha.
  - subst a. rewrite range_1_DIGIT_COUNT.
    assert (Hb : b ≠ 0).
    { apply NoDup_cons in Hnodup as [Hnotin _]. intros ->. apply Hnotin. by left. }
    cbn [repair_loop list_get lookup list_lookup mbind outcome_bind].
    rewrite bool_decide_eq_true_2 by done.
    exists [b; 0; c; d].
    assert (Hperm : [b; 0; c; d] ≡ₚ [0; b; c; d]) by apply perm_swap.
    split_and!; [done|done|by rewrite Hperm|by rewrite Hperm| |done| |done].
    + by exists b.
    + intros _. exists 1%nat, b. split_and!; [lia|lia|done|done|intros j; lia|done].
  - exists [a; b; c; d]. split_and!; [done..| |done| |done].
    + by exists a.
    + simpl. congruence.
Qed.

Lemma generate_number_secret_witness :
  ∃ digits,
    generate_number [0; 7; 3; 9] = Returns digits ∧
    length digits = 4%nat ∧ NoDup digits ∧ Forall (fun d => 0 ≤ d ≤ 9) digits ∧
    (∃ d0, digits !! 0%nat = Some d0 ∧ d0 ≠ 0) ∧
    digits ≡ₚ [0; 7; 3; 9] ∧
    ([0; 7; 3; 9] !! 0%nat = Some 0 →
     ∃ i di, (1 ≤ i < 4)%nat ∧ [0; 7; 3; 9] !! i = Some di ∧ di ≠ 0 ∧
             (∀ j, (1 ≤ j < i)%nat → [0; 7; 3; 9] !! j = Some 0) ∧
             digits = <[i := 0]> (<[0%nat := di]> [0; 7; 3; 9])) ∧
    ([0; 7; 3; 9] !! 0%nat ≠ Some 0 → digits = [0; 7; 3; 9]).
Proof.
  apply (generate_number_secret [0; 7; 3; 9]).
  split_and!; [reflexivity|by_compute|by_compute].
Defined.

(** ** is_valid_input *)

Lemma chars_length (s : string) : length (chars s) = String.length s.
Proof. induction s as [|c s IH]; simpl; [done|by rewrite IH]. Qed.

Lemma size_list_to_set_le (l : list ascii) :
  (size (list_to_set l : gset ascii) ≤ length l)%nat.
Proof.
  induction l as [|c l IH]; [by rewrite list_to_set_nil, size_empty|].
  rewrite list_to_set_cons, size_union_alt, size_singleton. simpl.
  assert (size (list_to_set l ∖ {[c]} : gset ascii) ≤ size (list_to_set l : gset ascii))%nat
    by (apply subseteq_size; intros x Hx; apply elem_of_difference in Hx; tauto).
  lia.
Qed.

(** [len(set(s)) == len(s)] says that no element of [s] repeats. *)
Lemma size_list_to_set_NoDup (l : list ascii) :
  size (list_to_set l : gset ascii) = length l ↔ NoDup l.
Proof.
  split; [|apply size_list_to_set].
  induction l as [|c l IH]; intros Hsize; [constructor|].
  rewrite list_to_set_cons in Hsize. simpl in Hsize.
  pose proof (size_list_to_set_le l) as Hle.
  destruct (decide (c ∈ l)) as [Hc|Hc].
  - assert ({[c]} ∪ list_to_set l = (list_to_set l : gset ascii)) as Heq.
    { apply set_eq. intros x.
      rewrite elem_of_union, elem_of_singleton, elem_of_list_to_set.
      split; [intros [->|Hx]; done|by right]. }
    rewrite Heq in Hsize. lia.
  - constructor; [done|]. apply IH.
    rewrite size_union, size_singleton in Hsize; [lia|].
    apply disjoint_singleton_l. by rewrite elem_of_list_to_set.
Qed.

Lemma len_set_all_distinct (s : string) :
  bool_decide (len_set s = len s) = all_distinct s.
Proof.
  unfold all_distinct, len_set, len. apply bool_decide_ext.
  rewrite <- size_list_to_set_NoDup, chars_length. lia.
Qed.

Lemma starts_with_zero_leading (s : string) :
  starts_with_zero s = negb (no_leading_zero s).
Proof.
  unfold starts_with_zero, no_leading_zero. rewrite negb_involutive.
  destruct s as [|c s]; [done|]. by rewrite bool_decide_eq_false_2.
Qed.

Lemma isdigit_plain (s : string) :
  plain_digits s → isdigit s = negb (bool_decide (s = "")) && all_decimal s.
Proof.
  unfold plain_digits, isdigit, all_decimal. intros Hplain. f_equal.
  induction (chars s) as [|c l IH]; simpl; [done|].
  rewrite IH by (intros c' Hc'; apply Hplain; by right).
  f_equal. specialize (Hplain c ltac:(by left)).
  destruct (char_isdigit c) eqn:Hc; [by rewrite Hplain|].
  unfold char_isdigit in Hc. by destruct (is_decimal c).
Qed.

Lemma length_ok_nonempty (s : string) : length_ok s = true → s ≠ "".
Proof. intros Hlen ->. discriminate Hlen. Qed.

(** C4, as the code has it.  On strings in which every character that
    isdigit accepts is one of the ASCII digits 0..9, the validator
    accepts exactly when the four checks hold, and reports one
    message per failed check in the order digits, length, leading zero,
    distinctness, where the digit check also fails on the empty string.
    12a3, 123, 0123 and 1123 are rejected with one message each. *)
Theorem is_valid_input_checks (s : string) :
  plain_digits s →
  is_valid_input s =
    (all_decimal s && length_ok s && no_leading_zero s && all_distinct s,
     messages_of (negb (bool_decide (s = "")) && all_decimal s)
       (length_ok s) (no_leading_zero s) (all_distinct s)) ∧
  is_valid_input "12a3" = (false, [msg_digits]) ∧
  is_valid_input "123" = (false, [msg_length]) ∧
  is_valid_input "0123" = (false, [msg_zero]) ∧
  is_valid_input "1123" = (false, [msg_unique]).
Proof.
  intros Hplain. split; [|by vm_compute].
  unfold is_valid_input.
  rewrite (isdigit_plain s Hplain), len_set_all_distinct, starts_with_zero_leading.
  fold (length_ok s).
  destruct (length_ok s) eqn:Hlen.
  - rewrite (bool_decide_eq_false_2 (s = "")) by by apply length_ok_nonempty.
    by destruct (all_decimal s), (no_leading_zero s), (all_distinct s).
  - by destruct (bool_decide (s = "")), (all_decimal s), (no_leading_zero s),
         (all_distinct s).
Qed.

Lemma is_valid_input_checks_witness :
  is_valid_input "1234" =
    (all_decimal "1234" && length_ok "1234" && no_leading_zero "1234" &&
     all_distinct "1234",
     messages_of (negb (bool_decide ("1234" = "")) && all_decimal "1234")
       (length_ok "1234") (no_leading_zero "1234") (all_distinct "1234")) ∧
  is_valid_input "12a3" = (false, [msg_digits]) ∧
  is_valid_input "123" = (false, [msg_length]) ∧
  is_valid_input "0123" = (false, [msg_zero]) ∧
  is_valid_input "1123" = (false, [msg_unique]).
Proof.
  apply (is_valid_input_checks "1234").
  intros c Hc _. revert c Hc. apply Forall_forall. by_compute.
Defined.

(** C4, as the specification words it, fails on the empty string: every
    character of the empty string is a decimal digit, so only the length
    check fails, yet the code also reports the digits message. *)
Lemma is_valid_input_empty_not_spec :
  all_decimal "" = true ∧
  validate_spec "" = (false, [msg_length]) ∧
  is_valid_input "" ≠ validate_spec "".
Proof. split_and!; [done|done|]. by vm_compute. Qed.

(** C10. The empty string is invalid with exactly two messages, the
    digits message and the length message: the leading-zero test does not
    fire without a first character, and the set of its characters is as
    long as the string. *)
Theorem is_valid_input_empty :
  is_valid_input "" = (false, [msg_digits; msg_length]) ∧
  isdigit "" = false ∧
  starts_with_zero "" = false ∧
  len_set "" = len "".
Proof. split_and!; reflexivity. Qed.

(** ** pluralize *)

(** C9. pluralize takes the singular word when count is 1 and the
    singular with the suffix otherwise, and puts the count and a space in
    front exactly when show_count is set; left-out arguments mean the
    suffix s and show_count true.  pluralize(1, bull) is 1 bull,
    pluralize(2, bull) is 2 bulls, and pluralize(3, attempt,
    show_count=False) is attempts. *)
Theorem pluralize_format (count : Z) (singular : string)
    (suffix : option string) (show_count : option bool) :
  (∃ word,
     (count = 1 → word = singular) ∧
     (count ≠ 1 → word = singular +:+ default "s" suffix) ∧
     (default true show_count = true →
      pluralize count singular suffix show_count = str count +:+ " " +:+ word) ∧
     (default true show_count = false →
      pluralize count singular suffix show_count = word)) ∧
  pluralize 1 "bull" None None = "1 bull" ∧
  pluralize 2 "bull" None None = "2 bulls" ∧
  pluralize 3 "attempt" None (Some false) = "attempts".
Proof.
  split; [|by vm_compute].
  unfold pluralize.
  exists (if bool_decide (count = 1) then singular else singular +:+ default "s" suffix).
  split_and!.
  - intros ->. done.
  - intros Hne. by rewrite bool_decide_eq_false_2.
  - intros ->. done.
  - intros ->. done.
Qed.

(** ** Lists of different lengths *)

Lemma evaluate_guess_zip (secret guess secret' guess' : list Z) :
  zip secret guess = zip secret' guess' →
  evaluate_guess secret guess = evaluate_guess secret' guess'.
Proof. unfold evaluate_guess. by intros ->. Qed.

(** C6, as the code has it.  Called with a secret and a guess of
    different lengths, evaluate_guess raises nothing: it returns the
    score of the two lists cut to the length of the shorter one. *)
Theorem evaluate_guess_truncates (secret guess : list Z) :
  length secret ≠ length guess →
  let n := (length secret `min` length guess)%nat in
  (∃ bulls cows, evaluate_guess secret guess = Returns (bulls, cows)) ∧
  evaluate_guess secret guess = evaluate_guess (take n secret) (take n guess).
Proof.
  intros _ n. split.
  - rewrite evaluate_guess_closed. by eexists _, _.
  - apply evaluate_guess_zip. symmetry. by apply zip_with_take_both'.
Qed.

Lemma evaluate_guess_truncates_witness :
  (∃ bulls cows, evaluate_guess [1; 2; 3] [1; 2; 3; 4] = Returns (bulls, cows)) ∧
  evaluate_guess [1; 2; 3] [1; 2; 3; 4] =
    evaluate_guess (take 3 [1; 2; 3]) (take 3 [1; 2; 3; 4]).
Proof. apply (evaluate_guess_truncates [1; 2; 3] [1; 2; 3; 4]). simpl. lia. Defined.

(** C6, as the specification words it, fails: a secret of three digits
    against a guess of four returns a score and raises no error. *)
Lemma evaluate_guess_no_length_error :
  length [1; 2; 3] ≠ length [1; 2; 3; 4] ∧
  evaluate_guess [1; 2; 3] [1; 2; 3; 4] = Returns (3, 0) ∧
  ¬ ∃ e, evaluate_guess [1; 2; 3] [1; 2; 3; 4] = Raises e.
Proof. split_and!; [simpl; lia|reflexivity|]. intros [e He]. discriminate He. Qed.

(** ** play_game *)

Lemma ints_of_chars_decimal (l : list ascii) :
  forallb is_decimal l = true →
  ∃ guess, ints_of_chars l = Returns guess ∧ length guess = length l.
Proof.
  induction l as [|c l IH]; simpl; intros Hall; [by exists []|].
  apply andb_prop in Hall as [Hc Hl]. destruct (IH Hl) as (guess & Hguess & Hlen).
  unfold int_of_char. rewrite Hc. simpl. rewrite Hguess. simpl.
  eexists. split; [reflexivity|]. simpl. by rewrite Hlen.
Qed.

Lemma ints_of_chars_raises (l : list ascii) :
  forallb is_decimal l = false → ints_of_chars l = Raises ValueError.
Proof.
  induction l as [|c l IH]; simpl; intros Hall; [done|].
  unfold int_of_char. destruct (is_decimal c); simpl; [|done].
  by rewrite IH.
Qed.

Lemma is_valid_input_isdigit (s : string) :
  (is_valid_input s).1 = true → isdigit s = true.
Proof.
  unfold is_valid_input. destruct (isdigit s); [done|]. simpl.
  unfold append_if.
  by destruct (negb _), (starts_with_zero s), (negb _).
Qed.

Section GameLoopFacts.
Context {time : Type}.
Variables (user_name : string) (end_time : time).

(** A line that fails validation: its messages are printed and the loop
    is back at the prompt with the session as it was. *)
Lemma iteration_rejected (st : session time) (user_input : string) :
  (is_valid_input user_input).1 = false →
  iteration user_name end_time st (Line user_input) =
    ([Prompt "Enter a number: "] ++
     ((fun msg => Print (colored_text msg RED_COLOR)) <$> (is_valid_input user_input).2) ++
     [Print line],
     Continue st).
Proof.
  intros Hinvalid. unfold iteration.
  destruct (is_valid_input user_input) as [is_valid messages].
  simpl in Hinvalid. by subst is_valid.
Qed.

(** A submission that passes validation and whose digits are ASCII
    digits: it is parsed, counted once and scored, and nothing else in
    the session changes. *)
Lemma iteration_accepted (st : session time) (user_input : string) :
  (is_valid_input user_input).1 = true → plain_digits user_input →
  ∃ guess bulls cows out,
    ints_of_chars (chars user_input) = Returns guess ∧
    evaluate_guess (secret st) guess = Returns (bulls, cows) ∧
    let st' := Session (secret st) (attempts st + 1) (start_time st) in
    iteration user_name end_time st (Line user_input) =
      (out, if bool_decide (bulls = DIGIT_COUNT) then Break st' else Continue st').
Proof.
  intros Hvalid Hplain. unfold iteration.
  pose proof (is_valid_input_isdigit _ Hvalid) as Hdigit.
  rewrite (isdigit_plain _ Hplain) in Hdigit.
  apply andb_prop in Hdigit as [_ Hdecimal].
  destruct (ints_of_chars_decimal _ Hdecimal) as (guess & Hguess & _).
  destruct (is_valid_input user_input) as [is_valid messages].
  simpl in Hvalid. subst is_valid. simpl. rewrite Hguess.
  pose proof (evaluate_guess_closed (secret st) guess) as Hscore. simpl in Hscore.
  rewrite Hscore. unfold report. cbn [secret attempts start_time].
  match goal with
  | |- context [bool_decide (?b = DIGIT_COUNT)] =>
      destruct (bool_decide (b = DIGIT_COUNT)) eqn:Hb
  end;
    eexists guess, _, _, _; (split_and!; [done|done|]);
    cbn zeta; rewrite Hb; reflexivity.
Qed.

(** X12. A line that passes validation although one of its characters
    is not a decimal digit ends the game, in any session: [int] raises
    ValueError on that character, nothing catches it, and nothing but
    the prompt has been printed. *)
Lemma iteration_uncaught (st : session time) (user_input : string) :
  (is_valid_input user_input).1 = true → all_decimal user_input = false →
  iteration user_name end_time st (Line user_input) =
    ([Prompt "Enter a number: "], Uncaught ValueError).
Proof.
  intros Hvalid Hdecimal. unfold iteration.
  destruct (is_valid_input user_input) as [is_valid messages].
  simpl in Hvalid. subst is_valid. simpl.
  by rewrite (ints_of_chars_raises _ Hdecimal).
Qed.

(** X9. While the loop is at the prompt, the counter is the count at the
    start of the run plus the number of lines since then that passed
    validation, and the secret and the start time are those of the
    start. *)
Lemma loop_attempts (inputs : list input_result) :
  ∀ (st st' : session time) out,
    loop user_name end_time st inputs = (out, Continue st') →
    attempts st' = attempts st + Z.of_nat (length (accepted inputs)) ∧
    secret st' = secret st ∧ start_time st' = start_time st.
Proof.
  induction inputs as [|inp inputs IH]; intros st st' out Hloop; simpl in Hloop.
  - injection Hloop as _ <-. simpl. split_and!; [lia|done|done].
  - destruct (iteration user_name end_time st inp) as [out1 c] eqn:Hiter.
    destruct c as [st1| | |]; try discriminate Hloop.
    destruct (loop user_name end_time st1 inputs) as [out2 c2] eqn:Hrest.
    injection Hloop as _ ->. destruct (IH _ _ _ Hrest) as (Hatt & Hsec & Htime).
    destruct inp as [user_input|]; [|discriminate Hiter].
    unfold accepted. cbn [omap list_omap]. fold (accepted inputs).
    unfold iteration in Hiter.
    destruct (is_valid_input user_input) as [[] messages]; cbn [fst negb] in *.
    + destruct (ints_of_chars (chars user_input)); [|discriminate Hiter].
      destruct (evaluate_guess _ _) as [[bulls cows]|]; [|discriminate Hiter].
      unfold report in Hiter. case_bool_decide; [discriminate Hiter|].
      injection Hiter as _ <-. simpl in *. split_and!; [lia|done|done].
    + injection Hiter as _ <-. done.
Qed.

(** The counter starts at 0. *)
Lemma play_game_starts_at_zero (sample : list Z) (start : time) :
  is_sample DIGIT_COUNT sample →
  ∃ digits, generate_number sample = Returns digits ∧
    play_game user_name sample start end_time [] = ([], Continue (Session digits 0 start)).
Proof.
  intros Hsample. destruct (generate_number_returns sample Hsample) as (digits & Hgen).
  exists digits. split; [done|]. unfold play_game. by rewrite Hgen.
Qed.
End GameLoopFacts.

(** C7, at the line 12²3.  The line passes validation, since isdigit
    accepts the superscript two, but int raises ValueError on it before
    the counter is incremented: the iteration ends the game with an
    uncaught exception, and the accepted submission is neither counted
    nor scored. *)
Theorem iteration_superscript_uncaught (time : Type) (user_name : string)
    (end_time : time) (st : session time) :
  is_valid_input superscript_line = (true, []) ∧
  ints_of_chars (chars superscript_line) = Raises ValueError ∧
  iteration user_name end_time st (Line superscript_line) =
    ([Prompt "Enter a number: "], Uncaught ValueError).
Proof. split_and!; reflexivity. Qed.

(** * Further properties *)

(** ** The validator on every string *)

Lemma is_valid_input_fst (s : string) :
  (is_valid_input s).1 =
    isdigit s && length_ok s && negb (starts_with_zero s) && all_distinct s.
Proof.
  unfold is_valid_input. rewrite len_set_all_distinct. fold (length_ok s).
  by destruct (isdigit s), (length_ok s), (starts_with_zero s), (all_distinct s).
Qed.

Lemma is_valid_input_snd_nil (s : string) :
  (is_valid_input s).2 = [] ↔ (is_valid_input s).1 = true.
Proof.
  unfold is_valid_input. simpl.
  destruct (append_if _ msg_unique _) as [|msg errors]; simpl; [done|].
  split; intros H; discriminate H.
Qed.

Lemma length_ok_len (s : string) : length_ok s = true ↔ length (chars s) = 4%nat.
Proof.
  unfold length_ok, len, DIGIT_COUNT. rewrite bool_decide_eq_true, chars_length. lia.
Qed.

Lemma starts_with_zero_head (s : string) :
  starts_with_zero s = true ↔ head (chars s) = Some "0"%char.
Proof.
  unfold starts_with_zero. destruct s as [|c s]; simpl; [done|].
  rewrite bool_decide_eq_true. done.
Qed.

(** X2. For every string, superscript digits included, the validator
    accepts exactly when isdigit holds, the length is 4, the first
    character is not the digit zero and no character repeats; and the
    list of messages is empty exactly when it accepts. *)
Theorem is_valid_input_accepts (s : string) :
  ((is_valid_input s).1 = true ↔
     isdigit s = true ∧ length (chars s) = 4%nat ∧
     head (chars s) ≠ Some "0"%char ∧ NoDup (chars s)) ∧
  ((is_valid_input s).2 = [] ↔ (is_valid_input s).1 = true).
Proof.
  split; [|apply is_valid_input_snd_nil].
  rewrite is_valid_input_fst, !andb_true_iff, negb_true_iff.
  rewrite length_ok_len, <- not_true_iff_false, starts_with_zero_head.
  unfold all_distinct. rewrite bool_decide_eq_true. tauto.
Qed.

Lemma is_valid_input_3_returns (s : string) :
  is_valid_input_3 s = Returns (is_valid_input s).1.
Proof.
  rewrite is_valid_input_fst. unfold is_valid_input_3, all_distinct.
  destruct (isdigit s); simpl; [|done].
  destruct (length_ok s) eqn:Hlen; unfold length_ok in Hlen; rewrite Hlen; simpl; [|done].
  apply bool_decide_eq_true in Hlen.
  assert (bool_decide (len_set s = DIGIT_COUNT) = bool_decide (NoDup (chars s))) as ->.
  { rewrite <- Hlen. apply len_set_all_distinct. }
  destruct s as [|c s]; [discriminate Hlen|].
  unfold starts_with_zero, str_get. simpl.
  destruct (bool_decide (NoDup _)); simpl; [|by rewrite andb_false_r].
  rewrite andb_true_r. f_equal. f_equal.
  apply bool_decide_ext. split; congruence.
Qed.

(** X1. The validator of pokus_3.py never raises: it returns the validity
    flag that the validator of pokus_3.1.py returns, and so it returns
    True exactly when that one has no message to report. *)
Theorem is_valid_input_3_agrees (s : string) :
  is_valid_input_3 s = Returns (is_valid_input s).1 ∧
  (is_valid_input_3 s = Returns true ↔ (is_valid_input s).2 = []).
Proof.
  split; [apply is_valid_input_3_returns|].
  rewrite is_valid_input_3_returns.
  etransitivity; [|symmetry; apply is_valid_input_snd_nil].
  split; [by intros [= ?]|intros H; by rewrite H].
Qed.

(** ** Digits and characters *)

Lemma is_decimal_cases (c : ascii) :
  is_decimal c = true →
  c ∈ ["0"; "1"; "2"; "3"; "4"; "5"; "6"; "7"; "8"; "9"]%char.
Proof.
  unfold is_decimal. intros Hc. apply andb_prop in Hc as [Hlo Hhi].
  apply N.leb_le in Hlo, Hhi.
  rewrite <- (ascii_N_embedding c). set (n := N_of_ascii c) in *.
  assert (n = 48 ∨ n = 49 ∨ n = 50 ∨ n = 51 ∨ n = 52 ∨
          n = 53 ∨ n = 54 ∨ n = 55 ∨ n = 56 ∨ n = 57)%N as Hn by lia.
  clearbody n. repeat destruct Hn as [->|Hn]; [..|subst n]; by_compute.
Qed.

Lemma digit_cases (d : Z) :
  0 ≤ d ≤ 9 → d ∈ [0; 1; 2; 3; 4; 5; 6; 7; 8; 9].
Proof.
  intros Hd.
  assert (d = 0 ∨ d = 1 ∨ d = 2 ∨ d = 3 ∨ d = 4 ∨
          d = 5 ∨ d = 6 ∨ d = 7 ∨ d = 8 ∨ d = 9) as Hn by lia.
  repeat destruct Hn as [->|Hn]; [..|subst d]; by_compute.
Qed.

(** [str] of a digit is one decimal character, and [int] reads it back. *)
Lemma str_digit (d : Z) :
  0 ≤ d ≤ 9 →
  ∃ c, str d = String c "" ∧ is_decimal c = true ∧ digit_value c = d.
Proof.
  intros Hd. apply digit_cases in Hd.
  repeat (apply elem_of_cons in Hd as [->|Hd]; [by eexists|]).
  by apply elem_of_nil in Hd.
Qed.

Lemma digit_value_str (c : ascii) :
  is_decimal c = true → 0 ≤ digit_value c ≤ 9 ∧ str (digit_value c) = String c "".
Proof.
  intros Hc. apply is_decimal_cases in Hc.
  repeat (apply elem_of_cons in Hc as [->|Hc]; [by vm_compute|]).
  by apply elem_of_nil in Hc.
Qed.

Lemma int_of_char_value (c : ascii) (x : Z) :
  int_of_char c = Returns x ↔ is_decimal c = true ∧ x = digit_value c.
Proof.
  unfold int_of_char, digit_value. destruct (is_decimal c); split.
  - by intros [= <-].
  - by intros [_ ->].
  - discriminate.
  - by intros [? _].
Qed.

(** What [[int(d) for d in s]] returns when it returns. *)
Lemma ints_of_chars_returns (l : list ascii) (guess : list Z) :
  ints_of_chars l = Returns guess ↔
  forallb is_decimal l = true ∧ guess = digit_value <$> l.
Proof.
  revert guess. induction l as [|c l IH]; intros guess; simpl.
  - split; [by intros [= <-]|by intros [_ ->]].
  - destruct (int_of_char c) as [x|e] eqn:Hc; simpl.
    + apply int_of_char_value in Hc as [Hdec ->]. rewrite Hdec. simpl.
      destruct (ints_of_chars l) as [xs|e] eqn:Hl; simpl.
      * destruct (proj1 (IH xs) eq_refl) as [Hall ->].
        split; [by intros [= <-]|by intros [_ ->]].
      * split; [discriminate|]. intros [Hall ->].
        discriminate (proj2 (IH (digit_value <$> l)) (conj Hall eq_refl)).
    + split; [discriminate|]. intros [Hall _].
      apply andb_prop in Hall as [Hdec _].
      unfold int_of_char in Hc. by rewrite Hdec in Hc.
Qed.

Lemma digit_value_inj : Inj (=) (=) digit_value.
Proof.
  intros c1 c2 Heq. unfold digit_value in Heq.
  rewrite <- (ascii_N_embedding c1), <- (ascii_N_embedding c2). f_equal. lia.
Qed.

Lemma join_cons (x : string) (l : list string) : join (x :: l) = x +:+ join l.
Proof. reflexivity. Qed.

Lemma chars_join_digits (l : list Z) :
  Forall (fun d => 0 ≤ d ≤ 9) l →
  forallb is_decimal (chars (join (str <$> l))) = true ∧
  digit_value <$> chars (join (str <$> l)) = l.
Proof.
  induction 1 as [|d l Hd _ [IH1 IH2]]; [done|].
  destruct (str_digit d Hd) as (c & Hstr & Hdec & Hval).
  rewrite fmap_cons, join_cons, Hstr.
  change (String c "" +:+ join (str <$> l)) with (String c (join (str <$> l))).
  change (chars (String c (join (str <$> l)))) with (c :: chars (join (str <$> l))).
  rewrite fmap_cons, IH2, Hval. split; [|done].
  cbn [forallb]. by rewrite Hdec, IH1.
Qed.

(** X4. Printing digits and reading them back: for every list of digits
    0..9, parsing the characters of the string that the game prints for
    it, one str per digit joined together, returns the list. *)
Theorem parse_printed_digits (l : list Z) :
  Forall (fun d => 0 ≤ d ≤ 9) l →
  ints_of_chars (chars (join (str <$> l))) = Returns l.
Proof.
  intros Hl. destruct (chars_join_digits l Hl) as [Hdec Hval].
  apply ints_of_chars_returns. by split.
Qed.

Lemma parse_printed_digits_witness :
  ints_of_chars (chars (join (str <$> [7; 0; 3; 9]))) = Returns [7; 0; 3; 9].
Proof. apply (parse_printed_digits [7; 0; 3; 9]). by_compute. Defined.

Lemma join_digit_values (s : string) :
  forallb is_decimal (chars s) = true → join (str <$> (digit_value <$> chars s)) = s.
Proof.
  induction s as [|c s IH]; intros Hall; [done|].
  change (chars (String c s)) with (c :: chars s) in *. cbn [forallb] in Hall.
  apply andb_prop in Hall as [Hc Hs]. destruct (digit_value_str c Hc) as [_ Hstr].
  rewrite !fmap_cons, join_cons, Hstr.
  change (String c "" +:+ ?x) with (String c x). f_equal. by apply IH.
Qed.

(** X5. Reading a line and printing it back: a line made of ASCII
    digits 0..9, of any length and with or without leading zeros, parses
    to a list of digits 0..9 of the same length, and printing that list
    digit by digit gives the line again. *)
Theorem print_parsed_line (s : string) :
  all_decimal s = true →
  ∃ guess,
    ints_of_chars (chars s) = Returns guess ∧
    length guess = String.length s ∧ Forall (fun d => 0 ≤ d ≤ 9) guess ∧
    join (str <$> guess) = s.
Proof.
  unfold all_decimal. intros Hall. exists (digit_value <$> chars s). split_and!.
  - apply ints_of_chars_returns. by split.
  - by rewrite length_fmap, chars_length.
  - apply Forall_fmap, Forall_forall. intros c Hc. simpl.
    rewrite forallb_forall in Hall.
    apply (digit_value_str c), Hall. by apply list_elem_of_In.
  - by apply join_digit_values.
Qed.

Lemma print_parsed_line_witness :
  ∃ guess,
    ints_of_chars (chars "0420") = Returns guess ∧
    length guess = String.length "0420" ∧ Forall (fun d => 0 ≤ d ≤ 9) guess ∧
    join (str <$> guess) = "0420".
Proof. apply (print_parsed_line "0420"). reflexivity. Defined.

(** ** Accepted lines *)

Lemma all_decimal_plain (s : string) : all_decimal s = true → plain_digits s.
Proof.
  unfold all_decimal, plain_digits. intros Hall c Hc _.
  rewrite forallb_forall in Hall. apply Hall. by apply list_elem_of_In.
Qed.

Lemma valid_plain_decimal (s : string) :
  (is_valid_input s).1 = true → plain_digits s → all_decimal s = true.
Proof.
  intros Hvalid Hplain. apply is_valid_input_isdigit in Hvalid.
  rewrite (isdigit_plain s Hplain) in Hvalid. by apply andb_prop in Hvalid as [_ ?].
Qed.

Lemma accepted_decimal_guess (s : string) :
  (is_valid_input s).1 = true → all_decimal s = true →
  let guess := digit_value <$> chars s in
  ints_of_chars (chars s) = Returns guess ∧
  length guess = 4%nat ∧ NoDup guess ∧ Forall (fun d => 0 ≤ d ≤ 9) guess ∧
  head guess ≠ Some 0.
Proof.
  intros Hvalid Hall guess. subst guess.
  rewrite is_valid_input_fst, !andb_true_iff, negb_true_iff in Hvalid.
  destruct Hvalid as (((_ & Hlen) & Hzero) & Hdistinct).
  apply length_ok_len in Hlen.
  apply not_true_iff_false in Hzero. rewrite starts_with_zero_head in Hzero.
  apply bool_decide_eq_true in Hdistinct.
  split_and!.
  - apply ints_of_chars_returns. by split.
  - by rewrite length_fmap.
  - apply NoDup_fmap; [apply digit_value_inj|done].
  - apply Forall_fmap, Forall_forall. intros c Hc. simpl.
    unfold all_decimal in Hall. rewrite forallb_forall in Hall.
    apply (digit_value_str c). apply Hall. by apply list_elem_of_In.
  - destruct (chars s) as [|c l]; simpl; [done|].
    intros [= Hc]. apply Hzero. simpl. f_equal. by apply digit_value_inj.
Qed.

(** X3. A line made of ASCII digits 0..9 that the validator accepts
    parses, and the guess it parses to has the shape of a secret: four
    pairwise distinct digits of 0..9, the first of them not 0. *)
Theorem accepted_guess_shape (s : string) :
  (is_valid_input s).1 = true → all_decimal s = true →
  ∃ guess,
    ints_of_chars (chars s) = Returns guess ∧
    is_sample DIGIT_COUNT guess ∧ head guess ≠ Some 0.
Proof.
  intros Hvalid Hall.
  destruct (accepted_decimal_guess s Hvalid Hall) as (Hparse & Hlen & Hnodup & Hrange & Hhead).
  eexists. split; [exact Hparse|]. split; [|done].
  split_and!; [by rewrite Hlen|done|done].
Qed.

Lemma accepted_guess_shape_witness :
  ∃ guess,
    ints_of_chars (chars "9041") = Returns guess ∧
    is_sample DIGIT_COUNT guess ∧ head guess ≠ Some 0.
Proof.
  apply (accepted_guess_shape "9041"); reflexivity.
Defined.

(** ** generate_number on any list of four or more ints *)

Lemma generate_number_four (a b c d : Z) (rest : list Z) :
  generate_number (a :: b :: c :: d :: rest) =
    Returns
      (if bool_decide (a = 0) then
         if bool_decide (b ≠ 0) then b :: a :: c :: d :: rest
         else if bool_decide (c ≠ 0) then c :: b :: a :: d :: rest
         else if bool_decide (d ≠ 0) then d :: b :: c :: a :: rest
         else a :: b :: c :: d :: rest
       else a :: b :: c :: d :: rest).
Proof.
  unfold generate_number. cbn [list_get lookup list_lookup mbind outcome_bind].
  case_bool_decide; [|done]. rewrite range_1_DIGIT_COUNT.
  cbn [repair_loop list_get lookup list_lookup mbind outcome_bind].
  repeat (case_bool_decide; [done|]). done.
Qed.

(** X15. Whatever list of at least four ints the sampling step hands
    over, distinct or not, generate_number returns a rearrangement of it
    that leaves the positions from 4 on alone, returns the list itself
    when its first element is not 0, and starts with 0 only when the
    first four elements are all 0. *)
Theorem generate_number_rearranges (l : list Z) :
  (4 ≤ length l)%nat →
  ∃ digits,
    generate_number l = Returns digits ∧
    digits ≡ₚ l ∧ drop 4 digits = drop 4 l ∧
    (head l ≠ Some 0 → digits = l) ∧
    (head digits = Some 0 ↔ take 4 l = [0; 0; 0; 0]).
Proof.
  intros Hlen. destruct l as [|a [|b [|c [|d rest]]]]; simpl in Hlen; try lia.
  rewrite generate_number_four. eexists. split; [reflexivity|].
  destruct (decide (a = 0)) as [->|Ha].
  2:{ rewrite bool_decide_eq_false_2 by done. simpl.
      split_and!; [done..|]. split; intros [=]; done. }
  rewrite bool_decide_eq_true_2 by done.
  destruct (decide (b = 0)) as [->|Hb].
  2:{ rewrite bool_decide_eq_true_2 by done. simpl.
      split_and!; [apply perm_swap|done|done|]. split; intros [=]; done. }
  rewrite bool_decide_eq_false_2 by tauto.
  destruct (decide (c = 0)) as [->|Hc].
  2:{ rewrite bool_decide_eq_true_2 by done. simpl.
      split_and!; [|done|done|split; intros [=]; done].
      etransitivity; [apply perm_swap|apply perm_skip, perm_swap]. }
  rewrite bool_decide_eq_false_2 by tauto.
  destruct (decide (d = 0)) as [->|Hd].
  2:{ rewrite bool_decide_eq_true_2 by done. simpl.
      split_and!; [|done|done|split; intros [=]; done].
      etransitivity; [apply perm_swap|apply perm_skip].
      etransitivity; [apply perm_swap|apply perm_skip, perm_swap]. }
  rewrite bool_decide_eq_false_2 by tauto. simpl. done.
Qed.

Lemma generate_number_rearranges_witness :
  ∃ digits,
    generate_number [0; 0; 5; 5; 1] = Returns digits ∧
    digits ≡ₚ [0; 0; 5; 5; 1] ∧ drop 4 digits = drop 4 [0; 0; 5; 5; 1] ∧
    (head [0; 0; 5; 5; 1] ≠ Some 0 → digits = [0; 0; 5; 5; 1]) ∧
    (head digits = Some 0 ↔ take 4 [0; 0; 5; 5; 1] = [0; 0; 0; 0]).
Proof. apply (generate_number_rearranges [0; 0; 5; 5; 1]). simpl. lia. Defined.

(** ** The secret as a line of input *)

Lemma generate_number_shape (sample : list Z) :
  is_sample DIGIT_COUNT sample →
  ∃ digits,
    generate_number sample = Returns digits ∧
    length digits = 4%nat ∧ NoDup digits ∧ Forall (fun d => 0 ≤ d ≤ 9) digits ∧
    head digits ≠ Some 0.
Proof.
  intros Hsample. destruct (is_sample_four sample Hsample) as (a & b & c & d & ->).
  destruct Hsample as (_ & Hnodup & Hrange).
  rewrite generate_number_four. eexists. split; [reflexivity|].
  case_bool_decide as Ha; [|split_and!; [done..|by intros [=]]].
  subst a. assert (Hb : b ≠ 0).
  { apply NoDup_cons in Hnodup as [Hnotin _]. intros ->. apply Hnotin. by left. }
  rewrite bool_decide_eq_true_2 by done.
  assert (Hperm : [b; 0; c; d] ≡ₚ [0; b; c; d]) by apply perm_swap.
  split_and!; [done|by rewrite Hperm|by rewrite Hperm|by intros [=]].
Qed.

(** The line that spells a secret passes validation. *)
Lemma printed_secret_valid (l : list Z) :
  length l = 4%nat → NoDup l → Forall (fun d => 0 ≤ d ≤ 9) l → head l ≠ Some 0 →
  (is_valid_input (join (str <$> l))).1 = true ∧
  all_decimal (join (str <$> l)) = true.
Proof.
  intros Hlen Hnodup Hrange Hhead.
  destruct (chars_join_digits l Hrange) as [Hdec Hval].
  set (s := join (str <$> l)) in *.
  assert (Hchars : length (chars s) = 4%nat).
  { by rewrite <- Hlen, <- Hval, length_fmap. }
  split; [|exact Hdec].
  rewrite is_valid_input_fst, !andb_true_iff, negb_true_iff. split_and!.
  - rewrite (isdigit_plain s (all_decimal_plain s Hdec)).
    apply andb_true_iff. split; [|exact Hdec].
    apply negb_true_iff, bool_decide_eq_false. intros Hs. by rewrite Hs in Hchars.
  - by apply length_ok_len.
  - apply not_true_iff_false. rewrite starts_with_zero_head. intros Hzero.
    apply Hhead. rewrite <- Hval. destruct (chars s) as [|c cs]; [done|].
    simpl in *. by injection Hzero as ->.
  - apply bool_decide_eq_true. apply (NoDup_fmap_1 digit_value). by rewrite Hval.
Qed.

(** All positions are bulls exactly when the guess is the secret. *)
Lemma evaluate_guess_bulls_all (secret guess : list Z) (bulls cows : Z) :
  length secret = length guess →
  evaluate_guess secret guess = Returns (bulls, cows) →
  bulls = Z.of_nat (length secret) ↔ guess = secret.
Proof.
  intros Hlen. rewrite evaluate_guess_closed. intros [= <- _].
  rewrite <- (zip_all_equal secret guess Hlen), <- filter_eq_all.
  rewrite length_zip. lia.
Qed.

Section GameLoopMore.
Context {time : Type}.
Variables (user_name : string) (end_time : time).

(** X7. While the secret has four digits, an accepted line made of ASCII
    digits 0..9 ends the game exactly when the guess it parses to is the
    secret; otherwise the loop goes on.  Either way the counter has gone
    up by one and nothing else in the session has changed. *)
Theorem iteration_wins_iff (st : session time) (user_input : string) :
  length (secret st) = 4%nat →
  (is_valid_input user_input).1 = true → all_decimal user_input = true →
  ∃ guess out,
    ints_of_chars (chars user_input) = Returns guess ∧
    let st' := Session (secret st) (attempts st + 1) (start_time st) in
    iteration user_name end_time st (Line user_input) =
      (out, if bool_decide (guess = secret st) then Break st' else Continue st').
Proof.
  intros Hsecret Hvalid Hall.
  destruct (iteration_accepted user_name end_time st user_input Hvalid
              (all_decimal_plain _ Hall))
    as (guess & bulls & cows & out & Hparse & Hscore & Hiter).
  exists guess, out. split; [done|]. cbn zeta in *. rewrite Hiter. f_equal.
  destruct (accepted_decimal_guess _ Hvalid Hall) as (Hparse' & Hlen & _).
  rewrite Hparse in Hparse'. injection Hparse' as Hguess. rewrite <- Hguess in Hlen.
  assert (Heq : bulls = DIGIT_COUNT ↔ guess = secret st).
  { rewrite <- (evaluate_guess_bulls_all (secret st) guess bulls cows);
      [unfold DIGIT_COUNT; lia|lia|done]. }
  by rewrite (bool_decide_ext _ _ Heq).
Qed.

(** X8. The loop on two batches of lines: when the first batch leaves
    the loop at the prompt, the second batch continues from that session
    and the output is the two outputs in a row; when the first batch ends
    the game (win, exit or uncaught exception), no later line is read. *)
Theorem loop_app (inputs1 inputs2 : list input_result) (st : session time) :
  loop user_name end_time st (inputs1 ++ inputs2) =
    match loop user_name end_time st inputs1 with
    | (out, Continue st') =>
        let '(out', c) := loop user_name end_time st' inputs2 in (out ++ out', c)
    | ended => ended
    end.
Proof.
  revert st. induction inputs1 as [|inp inputs1 IH]; intros st.
  - simpl. by destruct (loop user_name end_time st inputs2).
  - cbn [loop app].
    destruct (iteration user_name end_time st inp) as [out1 [st1| | |]]; [|done..].
    rewrite IH.
    destruct (loop user_name end_time st1 inputs1) as [out2 [st2| | |]]; [|done..].
    destruct (loop user_name end_time st2 inputs2) as [out3 c3].
    by rewrite app_assoc.
Qed.

Lemma iteration_break_inv (st st' : session time) (inp : input_result)
    (out : list (output time)) :
  iteration user_name end_time st inp = (out, Break st') →
  ∃ user_input guess cows,
    inp = Line user_input ∧ (is_valid_input user_input).1 = true ∧
    ints_of_chars (chars user_input) = Returns guess ∧
    evaluate_guess (secret st) guess = Returns (DIGIT_COUNT, cows) ∧
    st' = Session (secret st) (attempts st + 1) (start_time st).
Proof.
  intros Hiter. destruct inp as [user_input|]; [|discriminate Hiter].
  unfold iteration in Hiter.
  destruct (is_valid_input user_input) as [[] messages] eqn:Hvalid;
    cbn [negb] in Hiter; [|discriminate Hiter].
  destruct (ints_of_chars (chars user_input)) as [guess|] eqn:Hparse;
    [|discriminate Hiter].
  destruct (evaluate_guess _ _) as [[bulls cows]|] eqn:Hscore; [|discriminate Hiter].
  unfold report in Hiter. case_bool_decide as Hbulls; [|discriminate Hiter].
  injection Hiter as _ <-. subst bulls.
  exists user_input, guess, cows. by rewrite Hvalid.
Qed.

Lemma iteration_continue_inv (st st' : session time) (inp : input_result)
    (out : list (output time)) :
  iteration user_name end_time st inp = (out, Continue st') →
  attempts st' = attempts st + Z.of_nat (length (accepted [inp])) ∧
  secret st' = secret st ∧ start_time st' = start_time st.
Proof.
  intros Hiter. destruct inp as [user_input|]; [|discriminate Hiter].
  unfold accepted. cbn [omap list_omap]. unfold iteration in Hiter.
  destruct (is_valid_input user_input) as [[] messages]; cbn [fst negb] in *.
  - destruct (ints_of_chars (chars user_input)); [|discriminate Hiter].
    destruct (evaluate_guess _ _) as [[bulls cows]|]; [|discriminate Hiter].
    unfold report in Hiter. case_bool_decide; [discriminate Hiter|].
    injection Hiter as _ <-. simpl. split_and!; [lia|done|done].
  - injection Hiter as _ <-. simpl. split_and!; [lia|done|done].
Qed.

(** X10. When the loop ends with a win, the line that won is the first
    line that was scored as four bulls: it parses to the secret, and the
    attempts reported are the accepted lines before it plus one.  The
    lines after it play no part. *)
Theorem loop_break (inputs : list input_result) :
  ∀ (st st' : session time) out,
    length (secret st) = 4%nat →
    loop user_name end_time st inputs = (out, Break st') →
    ∃ before user_input after,
      inputs = before ++ Line user_input :: after ∧
      ints_of_chars (chars user_input) = Returns (secret st) ∧
      attempts st' = attempts st + Z.of_nat (length (accepted before)) + 1 ∧
      secret st' = secret st ∧ start_time st' = start_time st.
Proof.
  induction inputs as [|inp inputs IH]; intros st st' out Hsecret Hloop;
    cbn [loop] in Hloop; [discriminate Hloop|].
  destruct (iteration user_name end_time st inp) as [out1 c] eqn:Hiter.
  destruct c as [st1|st1| |]; try discriminate Hloop.
  - destruct (loop user_name end_time st1 inputs) as [out2 c2] eqn:Hrest.
    injection Hloop as _ ->.
    destruct (iteration_continue_inv st st1 inp out1 Hiter) as (Hatt & Hsec & Htime).
    destruct (IH st1 st' out2) as (before & s & after & -> & Hparse & Hatt' & Hsec' & Htime');
      [by rewrite Hsec|done|].
    exists (inp :: before), s, after. split_and!; [done|by rewrite <- Hsec|..].
    + rewrite Hatt', Hatt. change (inp :: before) with ([inp] ++ before).
      unfold accepted. rewrite omap_app, length_app. lia.
    + by rewrite Hsec'.
    + by rewrite Htime'.
  - injection Hloop as _ ->.
    destruct (iteration_break_inv st st' inp out1 Hiter)
      as (s & guess & cows & -> & Hvalid & Hparse & Hscore & ->).
    exists [], s, inputs. simpl. split_and!; [done| |lia|done|done].
    rewrite Hparse. f_equal.
    apply (evaluate_guess_bulls_all (secret st) guess DIGIT_COUNT cows);
      [|done|by rewrite Hsecret].
    apply ints_of_chars_returns in Hparse as [_ ->]. rewrite length_fmap.
    rewrite is_valid_input_fst, !andb_true_iff in Hvalid.
    destruct Hvalid as (((_ & Hlen) & _) & _). apply length_ok_len in Hlen. lia.
Qed.
End GameLoopMore.

Lemma iteration_wins_iff_witness :
  ∃ guess out,
    ints_of_chars (chars "1234") = Returns guess ∧
    let st' := Session [1; 2; 3; 4] (0 + 1) tt in
    iteration "Eva" tt (Session [1; 2; 3; 4] 0 tt) (Line "1234") =
      (out, if bool_decide (guess = [1; 2; 3; 4]) then Break st' else Continue st').
Proof.
  apply (iteration_wins_iff "Eva" tt (Session [1; 2; 3; 4] 0 tt) "1234");
    reflexivity.
Defined.

Lemma loop_break_witness :
  ∃ before user_input after,
    [Line "12a3"; Line "1243"; Line "1234"; Line "5678"] =
      before ++ Line user_input :: after ∧
    ints_of_chars (chars user_input) = Returns [1; 2; 3; 4] ∧
    2 = 0 + Z.of_nat (length (accepted before)) + 1 ∧
    [1; 2; 3; 4] = [1; 2; 3; 4] ∧ tt = tt.
Proof.
  eapply (loop_break "Eva" tt [Line "12a3"; Line "1243"; Line "1234"; Line "5678"]
            (Session [1; 2; 3; 4] 0 tt) (Session [1; 2; 3; 4] 2 tt));
    [reflexivity|vm_compute; reflexivity].
Defined.

Lemma loop_attempts_witness :
  2 = 1 + Z.of_nat (length (accepted [Line "12a3"; Line "1243"])) ∧
  [1; 2; 3; 4] = [1; 2; 3; 4] ∧ tt = tt.
Proof.
  eapply (loop_attempts "Eva" tt [Line "12a3"; Line "1243"]
            (Session [1; 2; 3; 4] 1 tt) (Session [1; 2; 3; 4] 2 tt)).
  vm_compute. reflexivity.
Defined.

Lemma iteration_uncaught_witness :
  iteration "Eva" tt (Session [1; 2; 3; 4] 5 tt) (Line superscript_line) =
    ([Prompt "Enter a number: "], Uncaught ValueError).
Proof.
  apply (iteration_uncaught "Eva" tt (Session [1; 2; 3; 4] 5 tt) superscript_line);
    reflexivity.
Defined.

(** ** From the first prompt to the win *)

Lemma filter_neq_nil (pairs : list (Z * Z)) :
  Forall (fun p => p.1 = p.2) pairs →
  filter (fun p : Z * Z => p.1 ≠ p.2) pairs = [].
Proof.
  induction 1 as [|[s g] pairs Hsg _ IH]; [done|].
  rewrite filter_cons, IH. simpl in *. by rewrite decide_False by tauto.
Qed.

Lemma evaluate_guess_self (l : list Z) :
  evaluate_guess l l = Returns (Z.of_nat (length l), 0).
Proof.
  rewrite evaluate_guess_closed.
  assert (Hall : Forall (fun p : Z * Z => p.1 = p.2) (zip l l))
    by by apply zip_all_equal.
  rewrite (filter_neq_nil _ Hall), (proj2 (filter_eq_all _) Hall), length_zip.
  simpl. do 2 f_equal. lia.
Qed.

(** X6. The game can be won at the first prompt.  For every possible
    draw, when the player gives a name and then types the secret as the
    game would print it, main ends with a win, the session holds the
    secret, one attempt and the start time, and the output reports the
    secret, the single attempt and the elapsed time. *)
Theorem first_guess_wins (time : Type) (user_name : string) (sample : list Z)
    (t0 t1 : time) :
  is_sample DIGIT_COUNT sample →
  ∃ digits out,
    generate_number sample = Returns digits ∧
    main (Line user_name) sample t0 t1 [Line (join (str <$> digits))] =
      (out, Played (Break (Session digits 1 t0))) ∧
    Print ("Secret number is: " +:+ join (str <$> digits)) ∈ out ∧
    Print "Your attempt: 1" ∈ out ∧
    PrintElapsed t0 t1 ∈ out.
Proof.
  intros Hsample.
  destruct (generate_number_shape sample Hsample)
    as (digits & Hgen & Hlen & Hnodup & Hrange & Hhead).
  destruct (printed_secret_valid digits Hlen Hnodup Hrange Hhead) as [Hvalid Hall].
  destruct (chars_join_digits digits Hrange) as [Hdec Hval].
  assert (Hparse : ints_of_chars (chars (join (str <$> digits))) = Returns digits)
    by (apply ints_of_chars_returns; by split).
  exists digits. eexists. split; [done|].
  unfold main, play_game. rewrite Hgen. cbn [loop]. unfold iteration.
  destruct (is_valid_input (join (str <$> digits))) as [is_valid messages].
  simpl in Hvalid. subst is_valid. cbn [negb]. rewrite Hparse.
  cbn [secret attempts]. rewrite evaluate_guess_self, Hlen.
  unfold report. rewrite bool_decide_eq_true_2 by done.
  cbn [secret attempts start_time].
  split; [reflexivity|].
  cbn [app].
  split_and!; repeat first [apply list_elem_of_here | apply list_elem_of_further].
Qed.

Lemma first_guess_wins_witness :
  ∃ digits out,
    generate_number [0; 7; 3; 9] = Returns digits ∧
    main (Line "Eva") [0; 7; 3; 9] tt tt [Line (join (str <$> digits))] =
      (out, Played (Break (Session digits 1 tt))) ∧
    Print ("Secret number is: " +:+ join (str <$> digits)) ∈ out ∧
    Print "Your attempt: 1" ∈ out ∧
    PrintElapsed tt tt ∈ out.
Proof.
  apply (first_guess_wins unit "Eva" [0; 7; 3; 9] tt tt).
  split_and!; [reflexivity|by_compute|by_compute].
Defined.

(** ** The loop of pokus_3.py *)

Section Loop3.
Context {time : Type}.
Variables (user_name : string) (end_time : time).

Lemma iteration_3_same (st : session time) (inp : input_result) :
  (iteration_3 user_name end_time st inp).2 = (iteration user_name end_time st inp).2 ∧
  ((∀ s, inp = Line s → (is_valid_input s).1 = true) →
   iteration_3 user_name end_time st inp = iteration user_name end_time st inp).
Proof.
  destruct inp as [s|]; [|done].
  unfold iteration_3, iteration. rewrite is_valid_input_3_returns.
  destruct (is_valid_input s) as [[] messages] eqn:Hs; cbn [fst negb].
  - done.
  - split; [done|]. intros Hvalid. specialize (Hvalid s eq_refl).
    rewrite Hs in Hvalid. discriminate Hvalid.
Qed.

End Loop3.

(** ** The score and the digits the two lists share *)

Lemma multiplicity_digit_multiset (v : Z) (l : list Z) :
  multiplicity v (digit_multiset l) = count v l.
Proof.
  unfold digit_multiset. induction l as [|x l IH].
  - by rewrite list_to_set_disj_nil, multiplicity_empty.
  - rewrite list_to_set_disj_cons, multiplicity_disj_union, multiplicity_singleton.
    rewrite count_cons, IH. case_decide; case_bool_decide; congruence.
Qed.

Lemma size_digit_multiset (l : list Z) : size (digit_multiset l) = length l.
Proof.
  unfold digit_multiset. induction l as [|x l IH].
  - by rewrite list_to_set_disj_nil, gmultiset_size_empty.
  - rewrite list_to_set_disj_cons, gmultiset_size_disj_union,
      gmultiset_size_singleton, IH. done.
Qed.

(** The digits credited as cows are the digits that the two working
    lists share, each as often as it is on both sides. *)
Lemma cow_credits_multiset (ug us : list Z) :
  digit_multiset (cow_credits ug us) = digit_multiset ug ∩ digit_multiset us.
Proof.
  apply gmultiset_eq. intros v.
  rewrite multiplicity_intersection, !multiplicity_digit_multiset.
  apply cow_credits_count.
Qed.

Lemma zip_swapped (secret : list Z) :
  ∀ guess : list Z,
    length (filter (fun p : Z * Z => p.1 = p.2) (zip guess secret)) =
      length (filter (fun p : Z * Z => p.1 = p.2) (zip secret guess)) ∧
    (filter (fun p : Z * Z => p.1 ≠ p.2) (zip guess secret)).*1 =
      (filter (fun p : Z * Z => p.1 ≠ p.2) (zip secret guess)).*2 ∧
    (filter (fun p : Z * Z => p.1 ≠ p.2) (zip guess secret)).*2 =
      (filter (fun p : Z * Z => p.1 ≠ p.2) (zip secret guess)).*1.
Proof.
  induction secret as [|s secret IH]; intros [|g guess]; [done..|].
  destruct (IH guess) as (IH1 & IH2 & IH3).
  cbn [zip_with]. rewrite !filter_cons. cbn [fst snd].
  destruct (decide (s = g)) as [->|Hne].
  - rewrite !decide_True, !decide_False by tauto. simpl. by rewrite IH1.
  - rewrite (decide_False (P := g = s)), (decide_True (P := g ≠ s)) by congruence.
    rewrite decide_True by done. rewrite !fmap_cons. cbn [fst snd].
    by rewrite IH1, IH2, IH3.
Qed.

(** X13. The score does not depend on which of the two lists is called
    the secret: for any two lists of ints, of any lengths,
    evaluate_guess(guess, secret) returns what evaluate_guess(secret,
    guess) returns. *)
Theorem evaluate_guess_symmetric (secret guess : list Z) :
  evaluate_guess guess secret = evaluate_guess secret guess.
Proof.
  rewrite !evaluate_guess_closed.
  destruct (zip_swapped secret guess) as (-> & -> & ->).
  do 3 f_equal.
  rewrite <- !size_digit_multiset, !cow_credits_multiset.
  f_equal. apply (comm_L (∩)).
Qed.

Lemma pairs_count (v : Z) (pairs : list (Z * Z)) :
  let agree := filter (fun p : Z * Z => p.1 = p.2) pairs in
  let differ := filter (fun p : Z * Z => p.1 ≠ p.2) pairs in
  count v pairs.*1 = (count v differ.*1 + count v agree.*1)%nat ∧
  count v pairs.*2 = (count v differ.*2 + count v agree.*1)%nat.
Proof.
  cbn zeta. induction pairs as [|[s g] pairs [IH1 IH2]]; [done|].
  rewrite !filter_cons, !fmap_cons. cbn [fst snd].
  destruct (decide (s = g)) as [->|Hne].
  - rewrite decide_False by tauto. rewrite !fmap_cons, !count_cons, IH1, IH2.
    cbn [fst]. lia.
  - rewrite decide_True by done. rewrite !fmap_cons, !count_cons, IH1, IH2.
    cbn [fst snd]. lia.
Qed.

Lemma pairs_multiset (pairs : list (Z * Z)) :
  let agree := filter (fun p : Z * Z => p.1 = p.2) pairs in
  let differ := filter (fun p : Z * Z => p.1 ≠ p.2) pairs in
  digit_multiset pairs.*1 = digit_multiset differ.*1 ⊎ digit_multiset agree.*1 ∧
  digit_multiset pairs.*2 = digit_multiset differ.*2 ⊎ digit_multiset agree.*1.
Proof.
  cbn zeta. split; apply gmultiset_eq; intros v;
    rewrite multiplicity_disj_union, !multiplicity_digit_multiset;
    apply (pairs_count v pairs).
Qed.

Lemma intersection_disj_union (X Y B : gmultiset Z) :
  (X ⊎ B) ∩ (Y ⊎ B) = (X ∩ Y) ⊎ B.
Proof.
  apply gmultiset_eq. intros v.
  rewrite !multiplicity_intersection, !multiplicity_disj_union,
    multiplicity_intersection. lia.
Qed.

Lemma count_filter_elem (v : Z) (secret guess : list Z) :
  count v (filter (fun d => d ∈ secret) guess) =
    if decide (v ∈ secret) then count v guess else 0%nat.
Proof.
  induction guess as [|g guess IH]; [by case_decide|].
  rewrite filter_cons. destruct (decide (g ∈ secret)) as [Hg|Hg].
  - rewrite !count_cons, IH. case_decide; [done|].
    rewrite bool_decide_eq_false_2; [done|]. by intros ->.
  - rewrite count_cons, IH. case_decide; [|done].
    rewrite bool_decide_eq_false_2; [done|]. by intros ->.
Qed.

Lemma count_NoDup_le (v : Z) (l : list Z) : NoDup l → (count v l ≤ 1)%nat.
Proof.
  intros Hl. destruct (decide (v ∈ l)).
  - by rewrite count_NoDup.
  - rewrite count_zero by done. lia.
Qed.

Lemma common_digits_NoDup (secret guess : list Z) :
  NoDup secret → NoDup guess →
  digit_multiset secret ∩ digit_multiset guess =
    digit_multiset (filter (fun d => d ∈ secret) guess).
Proof.
  intros Hs Hg. apply gmultiset_eq. intros v.
  rewrite multiplicity_intersection, !multiplicity_digit_multiset, count_filter_elem.
  pose proof (count_NoDup_le v guess Hg). case_decide.
  - rewrite (count_NoDup v secret) by done. lia.
  - rewrite (count_zero v secret) by done. lia.
Qed.

(** X14. For a secret and a guess of equal length, bulls + cows is the
    number of digits the two lists share, counted as often as they occur
    in both.  When neither list repeats a digit, this is the number of
    digits of the guess that occur in the secret. *)
Theorem bulls_cows_common (secret guess : list Z) :
  length secret = length guess →
  ∃ bulls cows,
    evaluate_guess secret guess = Returns (bulls, cows) ∧
    bulls + cows =
      Z.of_nat (size (digit_multiset secret ∩ digit_multiset guess)) ∧
    (NoDup secret → NoDup guess →
     bulls + cows = Z.of_nat (length (filter (fun d => d ∈ secret) guess))).
Proof.
  intros Hlen. rewrite evaluate_guess_closed. eexists _, _. split; [reflexivity|].
  set (pairs := zip secret guess).
  destruct (pairs_multiset pairs) as [H1 H2]. cbn zeta in H1, H2.
  unfold pairs in H1 at 1, H2 at 1. rewrite fst_zip in H1 by lia.
  rewrite snd_zip in H2 by lia.
  assert (Hsum :
    Z.of_nat (length (filter (fun p : Z * Z => p.1 = p.2) pairs)) +
    Z.of_nat (length (cow_credits (filter (fun p : Z * Z => p.1 ≠ p.2) pairs).*2
                                  (filter (fun p : Z * Z => p.1 ≠ p.2) pairs).*1)) =
    Z.of_nat (size (digit_multiset secret ∩ digit_multiset guess))).
  { rewrite H1, H2, intersection_disj_union, gmultiset_size_disj_union.
    rewrite (comm_L (∩)), <- cow_credits_multiset, !size_digit_multiset.
    rewrite length_fmap. lia. }
  split; [exact Hsum|]. intros Hs Hg.
  by rewrite Hsum, (common_digits_NoDup secret guess Hs Hg), size_digit_multiset.
Qed.

Lemma bulls_cows_common_witness :
  ∃ bulls cows,
    evaluate_guess [1; 2; 3; 4] [1; 5; 4; 2] = Returns (bulls, cows) ∧
    bulls + cows =
      Z.of_nat (size (digit_multiset [1; 2; 3; 4] ∩ digit_multiset [1; 5; 4; 2])) ∧
    (NoDup [1; 2; 3; 4] → NoDup [1; 5; 4; 2] →
     bulls + cows =
       Z.of_nat (length (filter (fun d => d ∈ [1; 2; 3; 4]) [1; 5; 4; 2]))).
Proof. apply (bulls_cows_common [1; 2; 3; 4] [1; 5; 4; 2]). reflexivity. Defined.

(** X17. evaluate_guess never raises: on any two lists of ints, of any
    lengths, the membership test guards every remove, the call returns,
    and bulls and cows are not negative and together at most the length
    of the shorter list. *)
Theorem evaluate_guess_returns (secret guess : list Z) :
  ∃ bulls cows,
    evaluate_guess secret guess = Returns (bulls, cows) ∧
    0 ≤ bulls ∧ 0 ≤ cows ∧
    bulls + cows ≤ Z.of_nat (length secret `min` length guess).
Proof.
  rewrite evaluate_guess_closed. eexists _, _. split; [reflexivity|].
  set (pairs := zip secret guess).
  pose proof (filter_eq_neq_length pairs) as Hsplit.
  pose proof (cow_credits_length (filter (fun p : Z * Z => p.1 ≠ p.2) pairs).*2
                (filter (fun p : Z * Z => p.1 ≠ p.2) pairs).*1) as Hcows.
  rewrite length_fmap in Hcows.
  assert (length pairs = (length secret `min` length guess)%nat)
    by (unfold pairs; apply length_zip_with).
  lia.
Qed.

(** ** How the loop can end *)

Section LoopEnds.
Context {time : Type}.
Variables (user_name : string) (end_time : time).

(** X18. An interrupt or the end of input at the prompt always ends the
    game cleanly: whatever lines came before, if they left the loop at
    the prompt, the loop prints the goodbye text in the error colour and
    exits, and nothing typed afterwards is read. *)
Theorem loop_interrupted (before after : list input_result) :
  ∀ (st st' : session time) out,
    loop user_name end_time st before = (out, Continue st') →
    loop user_name end_time st (before ++ Interrupted :: after) =
      (out ++ [Prompt "Enter a number: "; Print (colored_text goodbye RED_COLOR)],
       Exit).
Proof.
  induction before as [|inp before IH]; intros st st' out Hloop.
  - injection Hloop as <- _. done.
  - cbn [loop app] in *.
    destruct (iteration user_name end_time st inp) as [out1 [st1| | |]];
      try discriminate Hloop.
    destruct (loop user_name end_time st1 before) as [out2 c2] eqn:Hrest.
    injection Hloop as <- ->. rewrite (IH st1 st' out2 Hrest).
    by rewrite app_assoc.
Qed.

Lemma iteration_uncaught_inv (st : session time) (inp : input_result)
    (out : list (output time)) (e : exn) :
  iteration user_name end_time st inp = (out, Uncaught e) →
  e = ValueError ∧
  ∃ user_input,
    inp = Line user_input ∧ (is_valid_input user_input).1 = true ∧
    ∃ c, c ∈ chars user_input ∧ char_isdigit c = true ∧ is_decimal c = false.
Proof.
  intros Hiter. destruct inp as [user_input|]; [|discriminate Hiter].
  unfold iteration in Hiter.
  destruct (is_valid_input user_input) as [[] messages] eqn:Hvalid;
    cbn [negb] in Hiter; [|discriminate Hiter].
  assert (Hv : (is_valid_input user_input).1 = true) by by rewrite Hvalid.
  destruct (ints_of_chars (chars user_input)) as [guess|e'] eqn:Hparse.
  { rewrite evaluate_guess_closed in Hiter. unfold report in Hiter.
    by case_bool_decide. }
  injection Hiter as _ <-.
  destruct (all_decimal user_input) eqn:Hall.
  { destruct (ints_of_chars_decimal _ Hall) as (guess & Hguess & _). congruence. }
  rewrite (ints_of_chars_raises _ Hall) in Hparse. injection Hparse as <-.
  split; [done|]. exists user_input. split_and!; [done..|].
  apply is_valid_input_isdigit in Hv. unfold isdigit in Hv.
  apply andb_prop in Hv as [_ Hdigits]. unfold all_decimal in Hall.
  induction (chars user_input) as [|c l IH]; [discriminate Hall|].
  cbn [forallb] in Hall, Hdigits. apply andb_prop in Hdigits as [Hc Hl].
  destruct (is_decimal c) eqn:Hdec.
  - destruct (IH Hl Hall) as (c' & Hin & Hc'). exists c'. split; [by right|done].
  - exists c. split; [by left|done].
Qed.

(** X19. In a run in which every call of input returns a line or raises
    KeyboardInterrupt or EOFError, the computations of the loop body
    (validation, parsing, scoring) let an exception escape in one way
    only: the exception is ValueError, raised by int, and one of the
    lines typed passed validation while holding a character that isdigit
    accepts and that is not one of the ASCII digits 0..9.  So when every
    character that isdigit accepts in the lines typed is an ASCII digit,
    the loop ends at the prompt, with a win or with exit. *)
Theorem loop_uncaught (inputs : list input_result) :
  ∀ (st : session time) out c,
    loop user_name end_time st inputs = (out, c) →
    (∀ e, c = Uncaught e →
       e = ValueError ∧
       ∃ user_input d,
         Line user_input ∈ inputs ∧ (is_valid_input user_input).1 = true ∧
         d ∈ chars user_input ∧ char_isdigit d = true ∧ is_decimal d = false) ∧
    ((∀ user_input, Line user_input ∈ inputs → plain_digits user_input) →
     (∃ st', c = Continue st') ∨ (∃ st', c = Break st') ∨ c = Exit).
Proof.
  assert (Hraise : ∀ (st : session time) out e,
    loop user_name end_time st inputs = (out, Uncaught e) →
    e = ValueError ∧
    ∃ user_input d,
      Line user_input ∈ inputs ∧ (is_valid_input user_input).1 = true ∧
      d ∈ chars user_input ∧ char_isdigit d = true ∧ is_decimal d = false).
  { induction inputs as [|inp inputs IH]; intros st out e Hloop;
      cbn [loop] in Hloop; [discriminate Hloop|].
    destruct (iteration user_name end_time st inp) as [out1 c] eqn:Hiter.
    destruct c as [st1| | |e1]; try discriminate Hloop.
    - destruct (loop user_name end_time st1 inputs) as [out2 c2] eqn:Hrest.
      injection Hloop as _ ->.
      destruct (IH st1 out2 e Hrest) as (He & s & d & Hin & Hrest').
      split; [done|]. exists s, d. split; [by right|done].
    - injection Hloop as _ ->.
      destruct (iteration_uncaught_inv st inp out1 e Hiter)
        as (He & s & -> & Hvalid & d & Hin & Hdigit & Hdec).
      split; [done|]. exists s, d. split_and!; [by left|done..]. }
  intros st out c Hloop. split.
  - intros e ->. by apply (Hraise st out).
  - intros Hplain. destruct c as [st'|st'| |e]; [eauto..|].
    destruct (Hraise st out e Hloop) as (_ & s & d & Hin & _ & Hd & Hdigit & Hdec).
    specialize (Hplain s Hin d Hd Hdigit). congruence.
Qed.
End LoopEnds.

Lemma loop_interrupted_witness :
  ∃ out,
    loop "Eva" tt (Session [1; 2; 3; 4] 0 tt)
      ([Line "12a3"; Line "1243"] ++ Interrupted :: [Line "1234"]) =
      (out ++ [Prompt "Enter a number: "; Print (colored_text goodbye RED_COLOR)],
       Exit).
Proof.
  eexists.
  eapply (loop_interrupted "Eva" tt [Line "12a3"; Line "1243"] [Line "1234"]
            (Session [1; 2; 3; 4] 0 tt) (Session [1; 2; 3; 4] 1 tt)).
  vm_compute. reflexivity.
Defined.

Lemma loop_uncaught_witness :
  ValueError = ValueError ∧
  ∃ user_input d,
    Line user_input ∈ [Line "1243"; Line superscript_line; Line "1234"] ∧
    (is_valid_input user_input).1 = true ∧
    d ∈ chars user_input ∧ char_isdigit d = true ∧ is_decimal d = false.
Proof.
  set (inputs := [Line "1243"; Line superscript_line; Line "1234"]).
  set (st := Session [1; 2; 3; 4] 0 tt).
  assert (Hloop : loop "Eva" tt st inputs =
                    ((loop "Eva" tt st inputs).1, Uncaught ValueError))
    by (vm_compute; reflexivity).
  exact (proj1 (loop_uncaught "Eva" tt inputs st _ _ Hloop) ValueError eq_refl).
Defined.

